(** * Probabilistic Knowledge Transfer: the loss kernel and the training driver
    of [train_pkt.py]

    The development embeds [pkt_cosine_similarity_loss], [adjust_lr] and the
    parameter-mutating skeleton of [main], [train] and [test].

    Numbers.  The code is written once over an interface of scalar
    operations ([Scalar]); it is instantiated at IEEE binary64, the
    arithmetic of Python's floats, where not-a-number exists, the
    replacement of line 261 has an effect and the products of [adjust_lr]
    are rounded, and at the real numbers, for the properties that are worded
    in exact arithmetic.

    Tensors.  A two-dimensional tensor is a shape together with an entry
    function; entries outside the shape are never read. *)

From Stdlib Require Import Reals Lra Lia List ZArith Floats Bool PeanoNat.
From Stdlib Require Import Ascii String DecimalString DecimalNat DecimalFacts.
From stdpp Require Import base list gmap.
Import ListNotations.

#[local] Set Warnings "-inexact-float".

(** ** Scalars *)

(** The arithmetic the code needs: the literals 0, 1.0, 2.0 and 0.1, the
    conversion of a count, the four operations used, and [s_ne], the
    comparison [!=] of the source, whose only use is the self-comparison
    [x != x]. *)
Class Scalar (A : Type) := {
  s_zero : A;
  s_one : A;
  s_two : A;
  s_tenth : A;
  s_of_nat : nat -> A;
  s_add : A -> A -> A;
  s_mul : A -> A -> A;
  s_div : A -> A -> A;
  s_sqrt : A -> A;
  s_ne : A -> A -> bool
}.

(** The natural logarithm, needed by line 280 only. *)
Class ScalarLog (A : Type) := s_log : A -> A.

(** Exact arithmetic: what the program would compute without rounding.  It
    carries the properties that are stated in exact arithmetic, and no
    statement about the digits the program prints. *)
#[export] Instance R_scalar : Scalar R := {|
  s_zero := 0%R;
  s_one := 1%R;
  s_two := 2%R;
  s_tenth := (1 / 10)%R;
  s_of_nat := INR;
  s_add := Rplus;
  s_mul := Rmult;
  s_div := Rdiv;
  s_sqrt := R_sqrt.sqrt;
  s_ne := fun x y => if Req_dec_T x y then false else true
|}.

#[export] Instance R_log : ScalarLog R := ln.

(** IEEE binary64, with the comparison of the standard: a not-a-number is
    different from itself. *)
#[export] Instance float_scalar : Scalar float := {|
  s_zero := 0%float;
  s_one := 1%float;
  s_two := 2%float;
  s_tenth := 0.1%float;
  s_of_nat := fun n => PrimFloat.of_uint63 (Uint63.of_Z (Z.of_nat n));
  s_add := PrimFloat.add;
  s_mul := PrimFloat.mul;
  s_div := PrimFloat.div;
  s_sqrt := PrimFloat.sqrt;
  s_ne := fun x y => negb (PrimFloat.eqb x y)
|}.

(** The default [eps=1e-5] of line 257, in the two arithmetics. *)
Definition eps_default_R : R := (1 / 100000)%R.
Definition eps_default_float : float := 1e-5%float.

(** ** Two-dimensional tensors *)

Record tensor (A : Type) := mk_tensor {
  dim0 : nat;
  dim1 : nat;
  at_ : nat -> nat -> A
}.
Arguments mk_tensor {A} _ _ _.
Arguments dim0 {A} _.
Arguments dim1 {A} _.
Arguments at_ {A} _ _ _.

(** Two tensors are the same tensor when they have the same shape and the
    same entries inside it. *)
Definition tensor_eq {A} (X Y : tensor A) : Prop :=
  dim0 X = dim0 Y /\ dim1 X = dim1 Y /\
  forall i j, (i < dim0 X)%nat -> (j < dim1 X)%nat -> at_ X i j = at_ Y i j.

Section TensorOps.
Context {A : Type} `{Scalar A}.

(** Sum of a finite sequence of scalars, from the left, starting at zero. *)
Definition s_sum (l : list A) : A := fold_left s_add l s_zero.

(** [sum_upto n f] is f 0 + ... + f (n-1). *)
Definition sum_upto (n : nat) (f : nat -> A) : A := s_sum (map f (seq 0 n)).

(** Elementwise map: [X ** 2], [torch.sqrt X], [X + c], [X / c], [torch.log X]. *)
Definition t_map {B} (f : A -> B) (X : tensor A) : tensor B :=
  mk_tensor (dim0 X) (dim1 X) (fun i j => f (at_ X i j)).

(** Broadcasting of one dimension: a dimension of size 1 is stretched. *)
Definition bdim (a b : nat) : nat := if (a =? 1)%nat then b else a.
Definition bidx (d i : nat) : nat := if (d =? 1)%nat then 0%nat else i.
Definition bcompat (a b : nat) : bool :=
  (a =? b)%nat || (a =? 1)%nat || (b =? 1)%nat.
Definition broadcastable {B C} (X : tensor B) (Y : tensor C) : bool :=
  bcompat (dim0 X) (dim0 Y) && bcompat (dim1 X) (dim1 Y).

(** Elementwise binary operation with broadcasting: [X / Y], [X * Y], [X != Y]. *)
Definition t_zip {B} (f : A -> A -> B) (X Y : tensor A) : tensor B :=
  mk_tensor (bdim (dim0 X) (dim0 Y)) (bdim (dim1 X) (dim1 Y))
    (fun i j => f (at_ X (bidx (dim0 X) i) (bidx (dim1 X) j))
                  (at_ Y (bidx (dim0 Y) i) (bidx (dim1 Y) j))).

(** [torch.sum(X, dim=1, keepdim=True)]: shape (N, 1). *)
Definition t_sum_dim1_keepdim (X : tensor A) : tensor A :=
  mk_tensor (dim0 X) 1 (fun i _ => sum_upto (dim1 X) (fun j => at_ X i j)).

(** [X.transpose(0, 1)]. *)
Definition t_transpose (X : tensor A) : tensor A :=
  mk_tensor (dim1 X) (dim0 X) (fun i j => at_ X j i).

(** [torch.mm(X, Y)] for X of shape (n, k) and Y of shape (k, m). *)
Definition t_mm (X Y : tensor A) : tensor A :=
  mk_tensor (dim0 X) (dim1 Y)
    (fun i j => sum_upto (dim1 X) (fun k => s_mul (at_ X i k) (at_ Y k j))).

(** [X[mask] = v]: the entries selected by the mask are overwritten. *)
Definition t_masked_fill (X : tensor A) (mask : tensor bool) (v : A) : tensor A :=
  mk_tensor (dim0 X) (dim1 X)
    (fun i j => if at_ mask i j then v else at_ X i j).

(** [torch.mean(X)]: the sum of all entries over their number. *)
Definition t_mean (X : tensor A) : A :=
  s_div (sum_upto (dim0 X) (fun i => sum_upto (dim1 X) (fun j => at_ X i j)))
        (s_of_nat (dim0 X * dim1 X)).

Definition s_sq (x : A) : A := s_mul x x.

End TensorOps.

(** ** The loss, lines 257-282 *)

Section Loss.
Context {A : Type} `{Scalar A} `{ScalarLog A}.

(** [pkt_cosine_similarity_loss], statement by statement.  Each [let]
    rebinds the local name as the assignment of the source does.  The only
    operation whose operand shapes depend on both arguments is the
    division of line 280: torch raises a RuntimeError there when the two
    batch sizes cannot be broadcast, which is [None]. *)
Definition pkt_cosine_similarity_loss (output_s output_t : tensor A) (eps : A)
  : option A :=
  let output_s_norm :=
    t_map s_sqrt (t_sum_dim1_keepdim (t_map s_sq output_s)) in
  let output_s :=
    t_zip s_div output_s (t_map (fun x => s_add x eps) output_s_norm) in
  let output_s :=
    t_masked_fill output_s (t_zip s_ne output_s output_s) s_zero in
  let output_t_norm :=
    t_map s_sqrt (t_sum_dim1_keepdim (t_map s_sq output_t)) in
  let output_t :=
    t_zip s_div output_t (t_map (fun x => s_add x eps) output_t_norm) in
  let output_t :=
    t_masked_fill output_t (t_zip s_ne output_t output_t) s_zero in
  let output_s_cos_sim := t_mm output_s (t_transpose output_s) in
  let output_t_cos_sim := t_mm output_t (t_transpose output_t) in
  let output_s_cos_sim :=
    t_map (fun x => s_div (s_add x s_one) s_two) output_s_cos_sim in
  let output_t_cos_sim :=
    t_map (fun x => s_div (s_add x s_one) s_two) output_t_cos_sim in
  let output_s_cond_prob :=
    t_zip s_div output_s_cos_sim (t_sum_dim1_keepdim output_s_cos_sim) in
  let output_t_cond_prob :=
    t_zip s_div output_t_cos_sim (t_sum_dim1_keepdim output_t_cos_sim) in
  if broadcastable output_t_cond_prob output_s_cond_prob then
    Some (t_mean
            (t_zip s_mul output_t_cond_prob
               (t_map s_log
                  (t_zip s_div
                     (t_map (fun x => s_add x eps) output_t_cond_prob)
                     (t_map (fun x => s_add x eps) output_s_cond_prob)))))
  else None.

(** *** Slices of the function

    The statements that concern one of the two arguments, in the order of
    the source: lines 259-261 (263-265 for the teacher), then 268 and 272
    (269 and 273), then 276 (277); and line 280. *)

Definition output_normalized (output : tensor A) (eps : A) : tensor A :=
  let output_norm :=
    t_map s_sqrt (t_sum_dim1_keepdim (t_map s_sq output)) in
  let output :=
    t_zip s_div output (t_map (fun x => s_add x eps) output_norm) in
  t_masked_fill output (t_zip s_ne output output) s_zero.

Definition output_cos_sim (output : tensor A) (eps : A) : tensor A :=
  let output := output_normalized output eps in
  let cos_sim := t_mm output (t_transpose output) in
  t_map (fun x => s_div (s_add x s_one) s_two) cos_sim.

Definition output_cond_prob (output : tensor A) (eps : A) : tensor A :=
  let cos_sim := output_cos_sim output eps in
  t_zip s_div cos_sim (t_sum_dim1_keepdim cos_sim).

Definition kl_divergence_mean (cond_prob_t cond_prob_s : tensor A) (eps : A)
  : option A :=
  if broadcastable cond_prob_t cond_prob_s then
    Some (t_mean
            (t_zip s_mul cond_prob_t
               (t_map s_log
                  (t_zip s_div
                     (t_map (fun x => s_add x eps) cond_prob_t)
                     (t_map (fun x => s_add x eps) cond_prob_s)))))
  else None.

(** *** The transform and the estimator as the specification words them

    Entry by entry, for a batch [X] of shape (N, D). *)

(** Step 1: the Euclidean norm of row [i]. *)
Definition row_norm (X : tensor A) (i : nat) : A :=
  s_sqrt (sum_upto (dim1 X) (fun k => s_sq (at_ X i k))).

(** Replacement of a not-a-number by 0. *)
Definition nan_to_zero (x : A) : A := if s_ne x x then s_zero else x.

(** Step 2: division by (norm + eps), then the replacement. *)
Definition normalized_entry (X : tensor A) (eps : A) (i j : nat) : A :=
  nan_to_zero (s_div (at_ X i j) (s_add (row_norm X i) eps)).

Definition normalized_batch (X : tensor A) (eps : A) : tensor A :=
  mk_tensor (dim0 X) (dim1 X) (normalized_entry X eps).

(** The squared Euclidean norm of a normalized row. *)
Definition normalized_sqnorm (X : tensor A) (eps : A) (i : nat) : A :=
  sum_upto (dim1 X)
    (fun k => s_mul (normalized_entry X eps i k) (normalized_entry X eps i k)).

(** Step 3: the normalized batch times its own transpose. *)
Definition cosine_entry (X : tensor A) (eps : A) (i j : nat) : A :=
  sum_upto (dim1 X)
    (fun k => s_mul (normalized_entry X eps i k) (normalized_entry X eps j k)).

(** Step 4: (x + 1) / 2. *)
Definition rescaled_entry (X : tensor A) (eps : A) (i j : nat) : A :=
  s_div (s_add (cosine_entry X eps i j) s_one) s_two.

Definition rescaled_matrix (X : tensor A) (eps : A) : tensor A :=
  mk_tensor (dim0 X) (dim0 X) (rescaled_entry X eps).

(** Row [i] of a batch is all zeros. *)
Definition zero_row (X : tensor A) (i : nat) : Prop :=
  forall j, (j < dim1 X)%nat -> at_ X i j = s_zero.

(** The sum of row [i] of the rescaled matrix. *)
Definition rescaled_row_sum (X : tensor A) (eps : A) (i : nat) : A :=
  sum_upto (dim0 X) (fun k => rescaled_entry X eps i k).

(** Step 5: division of each row by its own sum, nothing added to it. *)
Definition similarity_distribution_transform (X : tensor A) (eps : A)
  : tensor A :=
  mk_tensor (dim0 X) (dim0 X)
    (fun i j => s_div (rescaled_entry X eps i j) (rescaled_row_sum X eps i)).

(** One term of the divergence. *)
Definition divergence_term (eps p_t p_s : A) : A :=
  s_mul p_t (s_log (s_div (s_add p_t eps) (s_add p_s eps))).

(** The flat mean over the N x N entries. *)
Definition flat_mean_divergence (N : nat) (P_t P_s : tensor A) (eps : A) : A :=
  s_div
    (sum_upto N (fun i =>
       sum_upto N (fun j => divergence_term eps (at_ P_t i j) (at_ P_s i j))))
    (s_of_nat (N * N)).

(** The mean of the per-row divergences, which the estimator is not. *)
Definition per_row_mean_divergence (N : nat) (P_t P_s : tensor A) (eps : A) : A :=
  s_div
    (sum_upto N (fun i =>
       sum_upto N (fun j => divergence_term eps (at_ P_t i j) (at_ P_s i j))))
    (s_of_nat N).

End Loss.

(** *** Small inputs in exact arithmetic *)

(** The batch [[1, 2], [3, 4]]. *)
Definition sample_batch : tensor R :=
  mk_tensor 2 2 (fun i j => INR (2 * i + j + 1)).

(** The (N, N) matrix with every entry [c]. *)
Definition const_matrix (N : nat) (c : R) : tensor R :=
  mk_tensor N N (fun _ _ => c).

(** The batch [[0, 0], [3, 4]] in binary64: its first row is all zeros. *)
Definition sample_batch_zero_row : tensor float :=
  mk_tensor 2 2
    (fun i j => if (i =? 0)%nat then 0%float
                else if (j =? 0)%nat then 3%float else 4%float).

(** ** The loss over a store of tensor objects

    The same function with the tensors as objects in a store, so that the
    in-place assignments of lines 261 and 265 are writes to a location.  A
    local name holds a location; an operation of torch allocates its result
    at a fresh location; [x[mask] = v] overwrites the object at the
    location of [x]. *)

Inductive obj (A : Type) :=
| Num (t : tensor A)
| Mask (m : tensor bool).
Arguments Num {A} t.
Arguments Mask {A} m.

Abbreviation heap A := (list (obj A)) (only parsing).
Abbreviation loc := nat (only parsing).

Section HeapLoss.
Context {A : Type} `{Scalar A} `{ScalarLog A}.

(** State and failure; a failure is the read of a missing object. *)
Definition M (X : Type) : Type := heap A -> option (X * heap A).

Definition ret {X} (x : X) : M X := fun h => Some (x, h).

Definition bind {X Y} (m : M X) (k : X -> M Y) : M Y :=
  fun h => match m h with
           | Some (x, h') => k x h'
           | None => None
           end.

Definition new (o : obj A) : M loc := fun h => Some (length h, h ++ [o]).

Definition get_num (l : loc) : M (tensor A) :=
  fun h => match h !! l with
           | Some (Num t) => Some (t, h)
           | _ => None
           end.

Definition get_mask (l : loc) : M (tensor bool) :=
  fun h => match h !! l with
           | Some (Mask m) => Some (m, h)
           | _ => None
           end.

Definition put (l : loc) (o : obj A) : M unit :=
  fun h => Some (tt, <[l := o]> h).

Notation "'do' x <- m ; k" := (bind m (fun x => k))
  (at level 10, x name, m at level 100, k at level 200).

Definition torch_map (f : A -> A) (x : loc) : M loc :=
  do tx <- get_num x ; new (Num (t_map f tx)).

Definition torch_zip (f : A -> A -> A) (x y : loc) : M loc :=
  do tx <- get_num x ; do ty <- get_num y ; new (Num (t_zip f tx ty)).

Definition torch_ne (x y : loc) : M loc :=
  do tx <- get_num x ; do ty <- get_num y ; new (Mask (t_zip s_ne tx ty)).

Definition torch_sum_dim1_keepdim (x : loc) : M loc :=
  do tx <- get_num x ; new (Num (t_sum_dim1_keepdim tx)).

Definition torch_transpose (x : loc) : M loc :=
  do tx <- get_num x ; new (Num (t_transpose tx)).

Definition torch_mm (x y : loc) : M loc :=
  do tx <- get_num x ; do ty <- get_num y ; new (Num (t_mm tx ty)).

(** [x[mask] = v], in place. *)
Definition setitem_mask (x mask : loc) (v : A) : M unit :=
  do tx <- get_num x ; do tm <- get_mask mask ;
  put x (Num (t_masked_fill tx tm v)).

(** Lines 259-261 and 263-265 for one argument: returns the location the
    local name is bound to after the three statements. *)
Definition normalize_in_store (output : loc) (eps : A) : M loc :=
  do sq <- torch_map s_sq output ;
  do sm <- torch_sum_dim1_keepdim sq ;
  do output_norm <- torch_map s_sqrt sm ;
  do den <- torch_map (fun x => s_add x eps) output_norm ;
  do output <- torch_zip s_div output den ;
  do mask <- torch_ne output output ;
  do _ <- setitem_mask output mask s_zero ;
  ret output.

Definition pkt_cosine_similarity_loss_store (output_s output_t : loc) (eps : A)
  : M (option A) :=
  do output_s <- normalize_in_store output_s eps ;
  do output_t <- normalize_in_store output_t eps ;
  do output_s_tr <- torch_transpose output_s ;
  do output_s_cos_sim <- torch_mm output_s output_s_tr ;
  do output_t_tr <- torch_transpose output_t ;
  do output_t_cos_sim <- torch_mm output_t output_t_tr ;
  do plus_s <- torch_map (fun x => s_add x s_one) output_s_cos_sim ;
  do output_s_cos_sim <- torch_map (fun x => s_div x s_two) plus_s ;
  do plus_t <- torch_map (fun x => s_add x s_one) output_t_cos_sim ;
  do output_t_cos_sim <- torch_map (fun x => s_div x s_two) plus_t ;
  do sum_s <- torch_sum_dim1_keepdim output_s_cos_sim ;
  do output_s_cond_prob <- torch_zip s_div output_s_cos_sim sum_s ;
  do sum_t <- torch_sum_dim1_keepdim output_t_cos_sim ;
  do output_t_cond_prob <- torch_zip s_div output_t_cos_sim sum_t ;
  do p_t <- get_num output_t_cond_prob ;
  do p_s <- get_num output_s_cond_prob ;
  ret (kl_divergence_mean p_t p_s eps).

End HeapLoss.

(** ** The progress lines of [train], lines 170 and 197 *)

Inductive arith_error := ZeroDivisionError.

(** [idx % print_freq == 0]; the remainder of Python has the sign of the
    divisor, as [Z.modulo] has, and a zero divisor raises. *)
Definition progress_due (print_freq : Z) (idx : nat) : arith_error + bool :=
  if (print_freq =? 0)%Z then inl ZeroDivisionError
  else inr ((Z.of_nat idx mod print_freq =? 0)%Z).

(** The indices of the batches after which [train] prints, for a loader of
    [n] batches counted from 1, up to the first error. *)
Fixpoint progress_from (print_freq : Z) (idx : nat) (n : nat)
  : arith_error + list nat :=
  match n with
  | O => inr []
  | S n' =>
      match progress_due print_freq idx with
      | inl e => inl e
      | inr due =>
          match progress_from print_freq (S idx) n' with
          | inl e => inl e
          | inr rest => inr (if due then idx :: rest else rest)
          end
      end
  end.

Definition train_progress (print_freq : Z) (n : nat) : arith_error + list nat :=
  progress_from print_freq 1 n.

(** ** The driver: [adjust_lr], [train], [test] and the loop of [main] *)

(** The exceptions the driver can raise by itself: the IndexError of line
    249, the ZeroDivisionError of line 197 and the Exception of line 90. *)
Inductive py_error :=
| IndexError
| ArithmeticError (e : arith_error)
| InvalidDatasetName.

(** Indexing of a Python list: a negative index counts from the end, and an
    index outside [-len, len) raises IndexError. *)
Definition py_getitem {X} (l : list X) (i : Z) : py_error + X :=
  let n := Z.of_nat (length l) in
  let k := if (i <? 0)%Z then (n + i)%Z else i in
  if (0 <=? k)%Z && (k <? n)%Z then
    match l !! Z.to_nat k with
    | Some x => inr x
    | None => inl IndexError
    end
  else inl IndexError.

(** Parameters are objects of a store; two networks that hold the same
    identifier share the parameter. *)
Abbreviation param_id := nat (only parsing).

Section Driver.
Context {A : Type} `{Scalar A}.

(** The value of a parameter tensor and a batch of the loader are opaque
    to the driver. *)
Variable V : Type.
Variable batch : Type.

(** A parameter of a network: its data, its [requires_grad] flag and its
    [.grad] slot. *)
Record param := mk_param {
  p_data : V;
  p_requires_grad : bool;
  p_grad : option V
}.

Record module := mk_module {
  parameters : list param_id;
  training : bool
}.

Record param_group := mk_param_group {
  pg_params : list param_id;
  pg_lr : A;
  pg_momentum : A;
  pg_weight_decay : A;
  pg_nesterov : bool
}.

Record SGD := mk_SGD {
  param_groups : list param_group;
  momentum_buffer : gmap param_id V
}.

Record state := mk_state {
  st_params : gmap param_id param;
  st_snet : module;
  st_tnet : module;
  st_optimizer : SGD
}.

(** The command line, as far as the driver reads it. *)
Record arguments := mk_arguments {
  args_lr : A;
  args_momentum : A;
  args_weight_decay : A;
  args_epochs : Z;
  args_print_freq : Z;
  args_data_name : list ascii
}.

(** What torch computes, left open: the gradient of the loss of a batch
    with respect to a parameter, the accumulation of a gradient into a
    [.grad] slot, what [zero_grad] leaves in a slot that held a gradient
    (a zeroed tensor, or nothing, depending on the version of torch), and
    the update rule of SGD with momentum, which gives the new data and the
    new momentum buffer. *)
Variable autograd : gmap param_id param -> batch -> param_id -> V.
Variable accumulate : option V -> V -> V.
Variable cleared : V -> option V.
Variable sgd_update : param_group -> V -> V -> option V -> V * V.

(** *** Lines 243-252 *)

Definition set_lr (lr : A) (g : param_group) : param_group :=
  mk_param_group (pg_params g) lr (pg_momentum g) (pg_weight_decay g)
                 (pg_nesterov g).

Definition adjust_lr (args : arguments) (optimizer : SGD) (epoch : Z)
  : py_error + SGD :=
  let scale := s_tenth in
  let lr_list := replicate 100 (args_lr args) in
  let lr_list := lr_list ++ replicate 50 (s_mul (args_lr args) scale) in
  let lr_list :=
    lr_list ++ replicate 50 (s_mul (s_mul (args_lr args) scale) scale) in
  match py_getitem lr_list (epoch - 1) with
  | inl e => inl e
  | inr lr =>
      inr (mk_SGD (map (set_lr lr) (param_groups optimizer))
                        (momentum_buffer optimizer))
  end.

(** *** The statements of torch that write the state *)

(** [for param in net.parameters(): param.requires_grad = False]. *)
Definition freeze (ids : list param_id) (ps : gmap param_id param)
  : gmap param_id param :=
  foldl (fun ps p => alter (fun x => mk_param (p_data x) false (p_grad x)) p ps)
        ps ids.

(** [optimizer.zero_grad()]: the slots of the parameters the optimizer
    holds. *)
Definition zero_grad_param (x : param) : param :=
  mk_param (p_data x) (p_requires_grad x)
           (match p_grad x with Some g => cleared g | None => None end).

Definition optimizer_zero_grad (st : state) : state :=
  let ids := concat (map pg_params (param_groups (st_optimizer st))) in
  mk_state (foldl (fun ps p => alter zero_grad_param p ps) (st_params st) ids)
           (st_snet st) (st_tnet st) (st_optimizer st).

(** [loss.backward()]: a gradient is accumulated into every parameter that
    the forward passes of line 177 and 178 used and whose [requires_grad]
    is set. *)
Definition backward_param (ps0 : gmap param_id param) (b : batch)
    (p : param_id) (x : param) : param :=
  if p_requires_grad x then
    mk_param (p_data x) true (Some (accumulate (p_grad x) (autograd ps0 b p)))
  else x.

Definition loss_backward (b : batch) (st : state) : state :=
  let ids := parameters (st_snet st) ++ parameters (st_tnet st) in
  let ps0 := st_params st in
  mk_state (foldl (fun ps p => alter (backward_param ps0 b p) p ps) ps0 ids)
           (st_snet st) (st_tnet st) (st_optimizer st).

(** [optimizer.step()]: every parameter of every group that has a
    gradient is updated, with its momentum buffer. *)
Definition step_param (g : param_group)
    (acc : gmap param_id param * gmap param_id V) (p : param_id)
  : gmap param_id param * gmap param_id V :=
  match acc.1 !! p with
  | Some x =>
      match p_grad x with
      | Some d_p =>
          let r := sgd_update g (p_data x) d_p (acc.2 !! p) in
          (<[p := mk_param r.1 (p_requires_grad x) (p_grad x)]> acc.1,
           <[p := r.2]> acc.2)
      | None => acc
      end
  | None => acc
  end.

Definition optimizer_step (st : state) : state :=
  let opt := st_optimizer st in
  let r := foldl (fun acc g => foldl (step_param g) acc (pg_params g))
                 (st_params st, momentum_buffer opt) (param_groups opt) in
  mk_state r.1 (st_snet st) (st_tnet st)
           (mk_SGD (param_groups opt) r.2).

Definition set_training (flag : bool) (m : module) : module :=
  mk_module (parameters m) flag.

(** *** The statements of the driver, in the order it runs them *)

Inductive stmt :=
| AdjustLr (epoch : Z)         (* line 122 *)
| SnetTrain                    (* line 167 *)
| SnetEval                     (* line 219 *)
| Forward (b : batch)          (* lines 177-188 and 228-238 *)
| ZeroGrad                     (* line 190 *)
| Backward (b : batch)         (* line 191 *)
| Step                         (* line 192 *)
| PrintProgress (idx : nat)    (* line 197 *)
| SaveCheckpoint (epoch : Z).  (* lines 140-152 *)

(** The forward passes, the losses and the meters read the parameters and
    write none; so does the write of a checkpoint.  The test of line 197
    writes nothing either, and raises when the print frequency is 0. *)
Definition exec (args : arguments) (s : stmt) (st : state) : py_error + state :=
  match s with
  | AdjustLr epoch =>
      match adjust_lr args (st_optimizer st) epoch with
      | inl e => inl e
      | inr opt => inr (mk_state (st_params st) (st_snet st) (st_tnet st) opt)
      end
  | SnetTrain =>
      inr (mk_state (st_params st) (set_training true (st_snet st))
                    (st_tnet st) (st_optimizer st))
  | SnetEval =>
      inr (mk_state (st_params st) (set_training false (st_snet st))
                    (st_tnet st) (st_optimizer st))
  | Forward _ => inr st
  | ZeroGrad => inr (optimizer_zero_grad st)
  | Backward b => inr (loss_backward b st)
  | Step => inr (optimizer_step st)
  | PrintProgress idx =>
      match progress_due (args_print_freq args) idx with
      | inl e => inl (ArithmeticError e)
      | inr _ => inr st
      end
  | SaveCheckpoint _ => inr st
  end.

(** [enumerate(loader, start=1)]. *)
Definition enumerate_from_1 (loader : list batch) : list (nat * batch) :=
  combine (seq 1 (length loader)) loader.

(** Lines 154-206. *)
Definition train (train_loader : list batch) : list stmt :=
  SnetTrain ::
  concat (map (fun ib : nat * batch =>
                 [Forward ib.2; ZeroGrad; Backward ib.2; Step;
                  PrintProgress ib.1])
              (enumerate_from_1 train_loader)).

(** Lines 208-241. *)
Definition test (test_loader : list batch) : list stmt :=
  SnetEval :: map Forward test_loader.

(** Lines 119-152: [for epoch in range(1, args.epochs+1)]. *)
Definition main_loop (args : arguments) (train_loader test_loader : list batch)
  : list stmt :=
  concat (map (fun e => let epoch := Z.of_nat e in
                        AdjustLr epoch :: train train_loader
                        ++ test test_loader ++ [SaveCheckpoint epoch])
              (seq 1 (Z.to_nat (args_epochs args)))).

(** The states a run goes through, one after each statement, up to the
    first error, and the error if there is one. *)
Fixpoint run (args : arguments) (prog : list stmt) (st : state)
  : list state * option py_error :=
  match prog with
  | [] => ([], None)
  | s :: prog' =>
      match exec args s st with
      | inl e => ([], Some e)
      | inr st' => let r := run args prog' st' in (st' :: r.1, r.2)
      end
  end.

(** Lines 55-72: the two networks hold the parameters [snet_ids] and
    [tnet_ids] of the store; the teacher is put in evaluation mode and
    frozen, and the optimizer is built on the parameters of the student. *)
Definition main_init (args : arguments) (ps : gmap param_id param)
    (snet_ids tnet_ids : list param_id) : state :=
  mk_state (freeze tnet_ids ps)
           (mk_module snet_ids true)
           (mk_module tnet_ids false)
           (mk_SGD
              [mk_param_group snet_ids (args_lr args) (args_momentum args)
                              (args_weight_decay args) true]
              ∅).

(** Lines 81-90: the two data sets the driver knows. *)
Definition valid_data_name (data_name : list ascii) : bool :=
  bool_decide (data_name = list_ascii_of_string "cifar10")
  || bool_decide (data_name = list_ascii_of_string "cifar100").

(** Lines 43-152.  The networks and the optimizer are built first; an
    unknown data set then ends the run with the Exception of line 90,
    before the loop. *)
Definition main (args : arguments) (ps : gmap param_id param)
    (snet_ids tnet_ids : list param_id) (train_loader test_loader : list batch)
  : list state * option py_error :=
  if valid_data_name (args_data_name args) then
    run args (main_loop args train_loader test_loader)
        (main_init args ps snet_ids tnet_ids)
  else ([], Some InvalidDatasetName).

End Driver.

Arguments mk_param {V} _ _ _.
Arguments p_data {V} _.
Arguments p_requires_grad {V} _.
Arguments p_grad {V} _.
Arguments mk_SGD {A V} _ _.
Arguments param_groups {A V} _.
Arguments momentum_buffer {A V} _.
Arguments mk_state {A V} _ _ _ _.
Arguments st_params {A V} _.
Arguments st_snet {A V} _.
Arguments st_tnet {A V} _.
Arguments st_optimizer {A V} _.
Arguments adjust_lr {A H V} args optimizer epoch.
Arguments freeze {V} ids ps.
Arguments zero_grad_param {V} cleared x.
Arguments optimizer_zero_grad {A V} cleared st.
Arguments backward_param {V batch} autograd accumulate ps0 b p x.
Arguments loss_backward {A V batch} autograd accumulate b st.
Arguments step_param {A V} sgd_update g acc p.
Arguments optimizer_step {A V} sgd_update st.
Arguments AdjustLr {batch} epoch.
Arguments SnetTrain {batch}.
Arguments SnetEval {batch}.
Arguments Forward {batch} b.
Arguments ZeroGrad {batch}.
Arguments Backward {batch} b.
Arguments Step {batch}.
Arguments PrintProgress {batch} idx.
Arguments enumerate_from_1 {batch} loader.
Arguments SaveCheckpoint {batch} epoch.
Arguments exec {A H V batch} autograd accumulate cleared sgd_update args s st.
Arguments run {A H V batch} autograd accumulate cleared sgd_update args prog st.
Arguments train {batch} train_loader.
Arguments test {batch} test_loader.
Arguments main_loop {A batch} args train_loader test_loader.
Arguments main_init {A V} args ps snet_ids tnet_ids.
Arguments main {A H V batch} autograd accumulate cleared sgd_update args ps
  snet_ids tnet_ids train_loader test_loader.

(** *** The schedule as the specification words it *)

Section Schedule.
Context {A : Type} `{Scalar A}.

(** The base rate for epochs up to 100, a tenth of it up to 150, a tenth of
    that afterwards. *)
Definition scheduled_lr (lr : A) (epoch : Z) : A :=
  if (epoch <=? 100)%Z then lr
  else if (epoch <=? 150)%Z then s_mul lr s_tenth
  else s_mul (s_mul lr s_tenth) s_tenth.

(** Every parameter group of the optimizer has the learning rate [lr]. *)
Definition all_groups_have_lr {V} (lr : A) (optimizer : SGD V) : Prop :=
  Forall (fun g => pg_lr g = lr) (param_groups optimizer).

End Schedule.

(** *** What a run preserves *)

Section DriverSpec.
Context {A : Type} {V batch : Type}.

(** The networks and the optimizer hold the parameters they were built on,
    and no parameter outside the student's differs from the store [ps0]. *)
Definition driver_inv (snet_ids tnet_ids : list param_id)
    (ps0 : gmap param_id (param V)) (st : state (A:=A) V) : Prop :=
  parameters (st_snet st) = snet_ids /\
  parameters (st_tnet st) = tnet_ids /\
  Forall (fun g => pg_params g = snet_ids) (param_groups (st_optimizer st)) /\
  (forall p, p ∉ snet_ids -> st_params st !! p = ps0 !! p).




End DriverSpec.

(** *** A small run in exact arithmetic

    One parameter for each network, the teacher's at identifier 1; one
    training batch and one test batch; gradients and updates are plain
    numbers. *)

Definition sample_args : arguments (A:=R) :=
  mk_arguments (1 / 10)%R (9 / 10)%R (1 / 10000)%R 2 10
               (list_ascii_of_string "cifar10").

Definition sample_params : gmap param_id (param R) :=
  <[0%nat := mk_param 1%R true None]> (<[1%nat := mk_param 5%R true None]> ∅).

Definition sample_autograd (ps : gmap param_id (param R)) (b : nat)
    (p : param_id) : R :=
  INR b.

Definition sample_accumulate (g : option R) (d : R) : R :=
  match g with Some g0 => (g0 + d)%R | None => d end.

Definition sample_cleared (g : R) : option R := Some 0%R.

Definition sample_sgd_update (g : param_group (A:=R)) (data d_p : R)
    (buf : option R) : R * R :=
  ((data - pg_lr g * d_p)%R, d_p).

Definition sample_optimizer : SGD R :=
  st_optimizer (main_init sample_args sample_params [0%nat] [1%nat]).



(** The default command line in binary64, the arithmetic of Python, and an
    optimizer built on one parameter. *)
Definition sample_args_binary64 : arguments (A:=float) :=
  mk_arguments 0.1%float 0.9%float 1e-4%float 200 10
               (list_ascii_of_string "cifar10").

Definition sample_optimizer_binary64 : SGD float :=
  mk_SGD [mk_param_group [0%nat] 0.1%float 0.9%float 1e-4%float true] ∅.


(** *** Counting the statements of a run *)

Section DriverMeasures.
Context {batch : Type}.




(** A statement other than the call of [adjust_lr]. *)
Definition sets_no_rate (s : stmt batch) : Prop :=
  match s with AdjustLr _ => False | _ => True end.

End DriverMeasures.

(** ** The name of a checkpoint file, lines 140-141 *)

(** A Python string is the list of its characters. *)

Definition lit (s : string) : list ascii := list_ascii_of_string s.

(** [str(n)] for a non-negative integer. *)
Definition py_str_nat (n : nat) : list ascii :=
  list_ascii_of_string (NilEmpty.string_of_uint (Nat.to_uint n)).

(** The field [{:>03}]: right-aligned in a width of 3, filled with 0; a
    longer text is not cut. *)
Definition format_right_zero_3 (s : list ascii) : list ascii :=
  replicate (3 - length s) "0"%char ++ s.

(** [posixpath.join] of two components. *)
Definition path_join2 (path b : list ascii) : list ascii :=
  match b with
  | "/"%char :: _ => b
  | _ =>
      match last path with
      | None => path ++ b
      | Some "/"%char => path ++ b
      | Some _ => path ++ "/"%char :: b
      end
  end.

(** [os.path.join(a, *p)]. *)
Definition os_path_join (a : list ascii) (p : list (list ascii)) : list ascii :=
  fold_left path_join2 p a.

(** Lines 140-141. *)
Definition checkpoint_name (save_root t_name s_name : list ascii) (epoch : nat)
  : list ascii :=
  let save_name :=
    lit "pkt_r" ++ drop 6 t_name ++ lit "_r" ++ drop 6 s_name ++ lit "_"
    ++ format_right_zero_3 (py_str_nat epoch) ++ lit ".ckp" in
  os_path_join save_root [lit "checkpoint"; save_name].

(** *** More small inputs *)

(** The one-row batch [[1, 2, 3]]. *)
Definition sample_single_row : tensor R :=
  mk_tensor 1 3 (fun _ j => INR (j + 1)).

(** The batch [[0, 0], [1, 2]] in exact arithmetic. *)
Definition sample_zero_row_R : tensor R :=
  mk_tensor 2 2 (fun i j => if (i =? 0)%nat then 0%R else INR (j + 1)).

(** The batch [[inf, 1]] in binary64. *)
Definition sample_batch_inf : tensor float :=
  mk_tensor 1 2 (fun _ j => if (j =? 0)%nat then infinity else 1%float).

(** * Properties *)

(** ** Broadcasting and finite sums, for any scalar arithmetic *)

Section TensorFacts.
Context {A : Type} `{Scalar A}.

Lemma bidx_lt (d i : nat) : (i < d)%nat -> bidx d i = i.
Proof.
  unfold bidx. intros Hi.
  destruct (Nat.eqb_spec d 1) as [-> | _]; [lia | reflexivity].
Qed.

Lemma bdim_same (a : nat) : bdim a a = a.
Proof. unfold bdim. destruct (a =? 1)%nat; reflexivity. Qed.

Lemma bdim_one_r (a : nat) : bdim a 1 = a.
Proof.
  unfold bdim. destruct (Nat.eqb_spec a 1) as [-> | _]; reflexivity.
Qed.

Lemma sum_upto_ext (n : nat) (f g : nat -> A) :
  (forall k, (k < n)%nat -> f k = g k) -> sum_upto n f = sum_upto n g.
Proof.
  intros Hfg. unfold sum_upto. f_equal.
  apply map_ext_in. intros k Hk. apply in_seq in Hk. apply Hfg. lia.
Qed.

Lemma sum_upto_0 (f : nat -> A) : sum_upto 0 f = s_zero.
Proof. reflexivity. Qed.

Lemma sum_upto_S (n : nat) (f : nat -> A) :
  sum_upto (S n) f = s_add (sum_upto n f) (f n).
Proof.
  unfold sum_upto, s_sum.
  rewrite seq_S, map_app, fold_left_app. reflexivity.
Qed.

End TensorFacts.

(** Exposes the shape and the entries of a tensor expression. *)
Ltac tensor_simpl :=
  unfold t_masked_fill, t_zip, t_map, t_sum_dim1_keepdim, t_mm, t_transpose;
  cbn [at_ dim0 dim1].

(** ** The slices are the function; the transform, entry by entry *)

Section LossFacts.
Context {A : Type} `{Scalar A} `{ScalarLog A}.

Lemma pkt_cosine_similarity_loss_slices (output_s output_t : tensor A) (eps : A) :
  pkt_cosine_similarity_loss output_s output_t eps =
  kl_divergence_mean (output_cond_prob output_t eps)
                     (output_cond_prob output_s eps) eps.
Proof. reflexivity. Qed.

Lemma output_normalized_shape (X : tensor A) (eps : A) :
  dim0 (output_normalized X eps) = dim0 X /\
  dim1 (output_normalized X eps) = dim1 X.
Proof.
  unfold output_normalized. tensor_simpl.
  split; [apply bdim_same | apply bdim_one_r].
Qed.

Lemma output_normalized_at (X : tensor A) (eps : A) (i j : nat) :
  (i < dim0 X)%nat -> (j < dim1 X)%nat ->
  at_ (output_normalized X eps) i j = normalized_entry X eps i j.
Proof.
  intros Hi Hj.
  unfold output_normalized, normalized_entry, nan_to_zero, row_norm.
  tensor_simpl. rewrite bdim_same, bdim_one_r.
  rewrite !(bidx_lt (dim0 X) i Hi), !(bidx_lt (dim1 X) j Hj).
  reflexivity.
Qed.

Lemma output_cos_sim_shape (X : tensor A) (eps : A) :
  dim0 (output_cos_sim X eps) = dim0 X /\ dim1 (output_cos_sim X eps) = dim0 X.
Proof.
  unfold output_cos_sim. tensor_simpl.
  split; apply (output_normalized_shape X eps).
Qed.

Lemma output_cos_sim_at (X : tensor A) (eps : A) (i j : nat) :
  (i < dim0 X)%nat -> (j < dim0 X)%nat ->
  at_ (output_cos_sim X eps) i j = rescaled_entry X eps i j.
Proof.
  intros Hi Hj. unfold output_cos_sim, rescaled_entry, cosine_entry.
  unfold t_map at 1. unfold t_mm, t_transpose. cbn [at_ dim0 dim1].
  destruct (output_normalized_shape X eps) as [_ ->].
  do 2 f_equal. apply sum_upto_ext. intros k Hk.
  rewrite !output_normalized_at by assumption. reflexivity.
Qed.

Lemma output_cond_prob_shape (X : tensor A) (eps : A) :
  dim0 (output_cond_prob X eps) = dim0 X /\
  dim1 (output_cond_prob X eps) = dim0 X.
Proof.
  unfold output_cond_prob. unfold t_zip, t_sum_dim1_keepdim. cbn [dim0 dim1].
  destruct (output_cos_sim_shape X eps) as [-> ->].
  split; [apply bdim_same | apply bdim_one_r].
Qed.

Lemma output_cond_prob_at (X : tensor A) (eps : A) (i j : nat) :
  (i < dim0 X)%nat -> (j < dim0 X)%nat ->
  at_ (output_cond_prob X eps) i j =
  s_div (rescaled_entry X eps i j) (rescaled_row_sum X eps i).
Proof.
  intros Hi Hj. unfold output_cond_prob, rescaled_row_sum.
  unfold t_zip, t_sum_dim1_keepdim. cbn [at_ dim0 dim1].
  destruct (output_cos_sim_shape X eps) as [-> ->].
  rewrite !(bidx_lt (dim0 X) i Hi), !(bidx_lt (dim0 X) j Hj).
  rewrite output_cos_sim_at by assumption. f_equal.
  apply sum_upto_ext. intros k Hk. apply output_cos_sim_at; assumption.
Qed.

Lemma output_cond_prob_transform (X : tensor A) (eps : A) :
  tensor_eq (output_cond_prob X eps) (similarity_distribution_transform X eps).
Proof.
  destruct (output_cond_prob_shape X eps) as [E0 E1].
  split; [exact E0 | split; [exact E1 |]].
  intros i j Hi Hj. rewrite E0 in Hi. rewrite E1 in Hj.
  apply output_cond_prob_at; assumption.
Qed.

Lemma output_normalized_batch (X : tensor A) (eps : A) :
  tensor_eq (output_normalized X eps) (normalized_batch X eps).
Proof.
  destruct (output_normalized_shape X eps) as [E0 E1].
  split; [exact E0 | split; [exact E1 |]].
  intros i j Hi Hj. rewrite E0 in Hi. rewrite E1 in Hj.
  apply output_normalized_at; assumption.
Qed.

Lemma output_cos_sim_matrix (X : tensor A) (eps : A) :
  tensor_eq (output_cos_sim X eps) (rescaled_matrix X eps).
Proof.
  destruct (output_cos_sim_shape X eps) as [E0 E1].
  split; [exact E0 | split; [exact E1 |]].
  intros i j Hi Hj. rewrite E0 in Hi. rewrite E1 in Hj.
  apply output_cos_sim_at; assumption.
Qed.

(** C1: the function computes, for each of its two arguments, the five
    steps of the Similarity-Distribution Transform in their order: the row
    norms, the division by norm + eps with every not-a-number entry set to
    0, the product with the transpose, (x + 1) / 2, and the division of each
    row by its plain sum; the two (N, N) results go to line 280, the
    teacher's first.  This holds for any eps, 1e-5 included, and any scalar
    arithmetic. *)
Theorem transform_performs_the_five_steps (output_s output_t : tensor A) (eps : A) :
  pkt_cosine_similarity_loss output_s output_t eps =
    kl_divergence_mean (output_cond_prob output_t eps)
                       (output_cond_prob output_s eps) eps
  /\ tensor_eq (output_normalized output_s eps) (normalized_batch output_s eps)
  /\ tensor_eq (output_normalized output_t eps) (normalized_batch output_t eps)
  /\ tensor_eq (output_cos_sim output_s eps) (rescaled_matrix output_s eps)
  /\ tensor_eq (output_cos_sim output_t eps) (rescaled_matrix output_t eps)
  /\ tensor_eq (output_cond_prob output_s eps)
               (similarity_distribution_transform output_s eps)
  /\ tensor_eq (output_cond_prob output_t eps)
               (similarity_distribution_transform output_t eps).
Proof.
  split; [reflexivity |].
  repeat split;
    first [ apply output_normalized_batch | apply output_cos_sim_matrix
          | apply output_cond_prob_transform ].
Qed.

(** The estimator on two (N, N) matrices, entry by entry. *)
Lemma kl_divergence_mean_square (N : nat) (f g : nat -> nat -> A) (eps : A) :
  kl_divergence_mean (mk_tensor N N f) (mk_tensor N N g) eps =
  Some (flat_mean_divergence N (mk_tensor N N f) (mk_tensor N N g) eps).
Proof.
  unfold kl_divergence_mean, broadcastable, bcompat. cbn [dim0 dim1].
  rewrite Nat.eqb_refl. cbn [orb andb]. f_equal.
  unfold t_mean, flat_mean_divergence. tensor_simpl.
  rewrite !bdim_same. f_equal.
  apply sum_upto_ext. intros i Hi. apply sum_upto_ext. intros j Hj.
  rewrite !(bidx_lt N i Hi), !(bidx_lt N j Hj). reflexivity.
Qed.

End LossFacts.

(** ** Exact arithmetic *)

Section ExactArithmetic.
#[local] Open Scope R_scope.

Ltac r_simpl :=
  unfold s_sq, s_log, R_log;
  cbn [s_zero s_one s_two s_tenth s_of_nat s_add s_mul s_div s_sqrt R_scalar].

Lemma Rsum_S (n : nat) (f : nat -> R) :
  sum_upto (S n) f = sum_upto n f + f n.
Proof. exact (sum_upto_S n f). Qed.

Lemma Rsum_le (n : nat) (f g : nat -> R) :
  (forall k, (k < n)%nat -> f k <= g k) -> sum_upto n f <= sum_upto n g.
Proof.
  induction n as [| n IH]; intros Hfg.
  - rewrite !sum_upto_0. r_simpl. lra.
  - rewrite !Rsum_S.
    assert (sum_upto n f <= sum_upto n g) by (apply IH; intros; apply Hfg; lia).
    assert (f n <= g n) by (apply Hfg; lia). lra.
Qed.

Lemma Rsum_const0 (n : nat) : sum_upto n (fun _ => 0) = 0.
Proof.
  induction n as [| n IH]; [reflexivity |]. rewrite Rsum_S, IH. lra.
Qed.

Lemma Rsum_nonneg (n : nat) (f : nat -> R) :
  (forall k, (k < n)%nat -> 0 <= f k) -> 0 <= sum_upto n f.
Proof.
  intros Hf. rewrite <- (Rsum_const0 n). apply Rsum_le. exact Hf.
Qed.

Lemma Rsum_zero (n : nat) (f : nat -> R) :
  (forall k, (k < n)%nat -> f k = 0) -> sum_upto n f = 0.
Proof.
  intros Hf. rewrite <- (Rsum_const0 n). apply sum_upto_ext. exact Hf.
Qed.

Lemma Rsum_ge_term (n : nat) (f : nat -> R) (i : nat) :
  (forall k, (k < n)%nat -> 0 <= f k) -> (i < n)%nat -> f i <= sum_upto n f.
Proof.
  induction n as [| n IH]; intros Hf Hi; [lia |].
  rewrite Rsum_S.
  assert (0 <= f n) by (apply Hf; lia).
  assert (0 <= sum_upto n f) by (apply Rsum_nonneg; intros; apply Hf; lia).
  destruct (Nat.eq_dec i n) as [-> | Hne]; [lra |].
  assert (f i <= sum_upto n f) by (apply IH; [intros; apply Hf |]; lia).
  lra.
Qed.

Lemma Rsum_plus (n : nat) (f g : nat -> R) :
  sum_upto n (fun k => f k + g k) = sum_upto n f + sum_upto n g.
Proof.
  induction n as [| n IH].
  - rewrite !sum_upto_0. r_simpl. lra.
  - rewrite !Rsum_S, IH. lra.
Qed.

Lemma Rsum_scale (n : nat) (f : nat -> R) (c : R) :
  sum_upto n (fun k => f k * c) = sum_upto n f * c.
Proof.
  induction n as [| n IH].
  - rewrite !sum_upto_0. r_simpl. lra.
  - rewrite !Rsum_S, IH. lra.
Qed.

(** No real number differs from itself: the replacement of lines 261 and
    265 changes nothing in exact arithmetic. *)
Lemma nan_to_zero_R (x : R) : nan_to_zero x = x.
Proof.
  unfold nan_to_zero. cbn [s_ne R_scalar].
  destruct (Req_dec_T x x) as [_ | Hne]; [reflexivity | contradiction].
Qed.

Lemma row_norm_nonneg (X : tensor R) (i : nat) : 0 <= row_norm X i.
Proof. unfold row_norm. r_simpl. apply sqrt_pos. Qed.

Lemma row_norm_sqr (X : tensor R) (i : nat) :
  row_norm X i * row_norm X i = sum_upto (dim1 X) (fun k => at_ X i k * at_ X i k).
Proof.
  unfold row_norm. r_simpl. apply sqrt_sqrt.
  apply Rsum_nonneg. intros k _. nra.
Qed.

Lemma normalized_entry_R (X : tensor R) (eps : R) (i j : nat) :
  normalized_entry X eps i j = at_ X i j / (row_norm X i + eps).
Proof. unfold normalized_entry. rewrite nan_to_zero_R. reflexivity. Qed.

Lemma normalized_sqnorm_bounds (X : tensor R) (eps : R) (i : nat) :
  0 < eps -> 0 <= normalized_sqnorm X eps i < 1.
Proof.
  intros Heps. unfold normalized_sqnorm.
  pose proof (row_norm_nonneg X i) as Hn.
  pose proof (row_norm_sqr X i) as Hsq.
  set (n := row_norm X i) in *.
  assert (Hd : 0 < n + eps) by lra.
  rewrite (sum_upto_ext _ _
             (fun k => (at_ X i k * at_ X i k) * (/ (n + eps) * / (n + eps)))).
  2:{ intros k _. r_simpl. rewrite normalized_entry_R. fold n.
      unfold Rdiv. ring. }
  rewrite Rsum_scale, <- Hsq.
  assert (Hi : 0 < / (n + eps)) by (apply Rinv_0_lt_compat; exact Hd).
  assert (Hni : n * / (n + eps) < 1).
  { apply (Rmult_lt_reg_r (n + eps)); [exact Hd |].
    rewrite Rmult_assoc, Rinv_l by lra. lra. }
  assert (Hn0 : 0 <= n * / (n + eps)) by (apply Rmult_le_pos; lra).
  replace (n * n * (/ (n + eps) * / (n + eps)))
    with ((n * / (n + eps)) * (n * / (n + eps))) by ring.
  split; nra.
Qed.

Lemma cosine_entry_bounds (X : tensor R) (eps : R) (i j : nat) :
  0 < eps -> -1 < cosine_entry X eps i j < 1.
Proof.
  intros Heps.
  pose proof (normalized_sqnorm_bounds X eps i Heps) as Hi.
  pose proof (normalized_sqnorm_bounds X eps j Heps) as Hj.
  unfold normalized_sqnorm in Hi, Hj. unfold cosine_entry.
  set (a := normalized_entry X eps i) in *.
  set (b := normalized_entry X eps j) in *.
  revert Hi Hj. r_simpl. intros Hi Hj.
  assert (Hup : sum_upto (dim1 X) (fun k => a k * b k * 2)
                <= sum_upto (dim1 X) (fun k => a k * a k + b k * b k)).
  { apply Rsum_le. intros k _.
    pose proof (Rle_0_sqr (a k - b k)) as Hs. unfold Rsqr in Hs. lra. }
  assert (Hlo : sum_upto (dim1 X) (fun k => a k * b k * -2)
                <= sum_upto (dim1 X) (fun k => a k * a k + b k * b k)).
  { apply Rsum_le. intros k _.
    pose proof (Rle_0_sqr (a k + b k)) as Hs. unfold Rsqr in Hs. lra. }
  rewrite Rsum_scale, Rsum_plus in Hup, Hlo. lra.
Qed.

Lemma rescaled_entry_bounds (X : tensor R) (eps : R) (i j : nat) :
  0 < eps -> 0 < rescaled_entry X eps i j < 1.
Proof.
  intros Heps. pose proof (cosine_entry_bounds X eps i j Heps) as Hc.
  unfold rescaled_entry. r_simpl. lra.
Qed.

Lemma rescaled_diagonal (X : tensor R) (eps : R) (i : nat) :
  0 < eps -> 1 / 2 <= rescaled_entry X eps i i.
Proof.
  intros Heps. pose proof (normalized_sqnorm_bounds X eps i Heps) as Hn.
  unfold rescaled_entry. change (cosine_entry X eps i i)
    with (normalized_sqnorm X eps i). r_simpl. lra.
Qed.

Lemma rescaled_row_sum_half (X : tensor R) (eps : R) (i : nat) :
  0 < eps -> (i < dim0 X)%nat -> 1 / 2 <= rescaled_row_sum X eps i.
Proof.
  intros Heps Hi. unfold rescaled_row_sum.
  apply Rle_trans with (rescaled_entry X eps i i).
  - apply rescaled_diagonal; exact Heps.
  - apply (Rsum_ge_term (dim0 X) (fun k => rescaled_entry X eps i k) i);
      [| exact Hi].
    intros k _. apply Rlt_le. apply rescaled_entry_bounds; exact Heps.
Qed.

(** The rows of the conditional-probability matrix sum to 1, whatever the
    batch. *)
Lemma cond_prob_row_sum (X : tensor R) (eps : R) (i : nat) :
  0 < eps -> (i < dim0 X)%nat ->
  sum_upto (dim1 (output_cond_prob X eps))
           (fun j => at_ (output_cond_prob X eps) i j) = 1.
Proof.
  intros Heps Hi.
  destruct (output_cond_prob_shape X eps) as [_ ->].
  rewrite (sum_upto_ext _ _
             (fun j => rescaled_entry X eps i j * / rescaled_row_sum X eps i)).
  2:{ intros j Hj. rewrite output_cond_prob_at by assumption. reflexivity. }
  rewrite Rsum_scale. fold (rescaled_row_sum X eps i).
  pose proof (rescaled_row_sum_half X eps i Heps Hi).
  apply Rinv_r. lra.
Qed.

(** X22: in exact arithmetic, with a positive eps, every row of the
    conditional-probability matrix sums to exactly 1, whatever the batch,
    all-zero rows included. *)
Theorem cond_prob_rows_sum_to_one_exactly (X : tensor R) (eps : R) (i : nat) :
  0 < eps -> (i < dim0 X)%nat ->
  at_ (t_sum_dim1_keepdim (output_cond_prob X eps)) i 0 = 1.
Proof.
  intros Heps Hi. unfold t_sum_dim1_keepdim. cbn [at_].
  apply cond_prob_row_sum; assumption.
Qed.

Lemma eps_default_R_pos : 0 < eps_default_R.
Proof. unfold eps_default_R. lra. Qed.

Lemma cond_prob_rows_sum_to_one_exactly_witness :
  0 < eps_default_R /\ (0 < dim0 sample_batch)%nat /\
  at_ (t_sum_dim1_keepdim (output_cond_prob sample_batch eps_default_R)) 0 0 = 1.
Proof.
  assert (Hi : (0 < dim0 sample_batch)%nat) by (cbn; lia).
  split; [exact eps_default_R_pos |]. split; [exact Hi |].
  exact (cond_prob_rows_sum_to_one_exactly sample_batch eps_default_R 0
           eps_default_R_pos Hi).
Defined.

(** C10: in exact arithmetic, with a positive eps, for every batch and every
    row i of it (so N >= 1): the normalized row has Euclidean norm strictly
    below 1, every rescaled cosine entry of the row lies strictly between 0
    and 1, the diagonal entry is at least 1/2, and the row sum that line 276
    divides by is at least 1/2, so it is not zero. *)
Theorem row_sums_at_least_half (X : tensor R) (eps : R) (i : nat) :
  0 < eps -> (i < dim0 X)%nat ->
  R_sqrt.sqrt (sum_upto (dim1 X)
                 (fun k => at_ (output_normalized X eps) i k
                           * at_ (output_normalized X eps) i k)) < 1
  /\ (forall j, (j < dim0 X)%nat -> 0 < at_ (output_cos_sim X eps) i j < 1)
  /\ 1 / 2 <= at_ (output_cos_sim X eps) i i
  /\ 1 / 2 <= at_ (t_sum_dim1_keepdim (output_cos_sim X eps)) i 0
  /\ at_ (t_sum_dim1_keepdim (output_cos_sim X eps)) i 0 <> 0.
Proof.
  intros Heps Hi.
  assert (Hsum : at_ (t_sum_dim1_keepdim (output_cos_sim X eps)) i 0
                 = rescaled_row_sum X eps i).
  { unfold t_sum_dim1_keepdim. cbn [at_].
    destruct (output_cos_sim_shape X eps) as [_ ->].
    apply sum_upto_ext. intros k Hk. apply output_cos_sim_at; assumption. }
  pose proof (rescaled_row_sum_half X eps i Heps Hi) as Hhalf.
  split.
  - rewrite (sum_upto_ext _ _
               (fun k => normalized_entry X eps i k * normalized_entry X eps i k)).
    2:{ intros k Hk. rewrite output_normalized_at by assumption. reflexivity. }
    pose proof (normalized_sqnorm_bounds X eps i Heps) as Hn.
    unfold normalized_sqnorm in Hn. revert Hn. r_simpl. intros Hn.
    rewrite <- sqrt_1. apply sqrt_lt_1_alt. exact Hn.
  - split.
    + intros j Hj. rewrite output_cos_sim_at by assumption.
      apply rescaled_entry_bounds; exact Heps.
    + split.
      * rewrite output_cos_sim_at by assumption.
        apply rescaled_diagonal; exact Heps.
      * rewrite Hsum. split; lra.
Qed.

Lemma row_sums_at_least_half_witness :
  0 < eps_default_R /\ (1 < dim0 sample_batch)%nat /\
  1 / 2 <= at_ (t_sum_dim1_keepdim (output_cos_sim sample_batch eps_default_R)) 1 0.
Proof.
  split; [exact eps_default_R_pos |].
  assert (Hi : (1 < dim0 sample_batch)%nat) by (cbn; lia).
  split; [exact Hi |].
  exact (proj1 (proj2 (proj2 (proj2
           (row_sums_at_least_half sample_batch eps_default_R 1
              eps_default_R_pos Hi))))).
Defined.

Lemma identical_term_zero (eps p : R) :
  0 < eps -> 0 <= p ->
  (p + eps) / (p + eps) = 1 /\ divergence_term eps p p = 0.
Proof.
  intros Heps Hp.
  assert (E : (p + eps) / (p + eps) = 1) by (apply Rdiv_diag; lra).
  split; [exact E |].
  unfold divergence_term. r_simpl. rewrite E, ln_1. ring.
Qed.

(** C5: in exact arithmetic, with a positive eps, the estimator of two
    identical (N, N) matrices with non-negative entries, N >= 1, is exactly
    0: every ratio is 1 and every term is 0. *)
Theorem identical_matrices_zero_divergence (N : nat) (f : nat -> nat -> R) (eps : R) :
  (0 < N)%nat -> 0 < eps ->
  (forall i j, (i < N)%nat -> (j < N)%nat -> 0 <= f i j) ->
  kl_divergence_mean (mk_tensor N N f) (mk_tensor N N f) eps = Some 0.
Proof.
  intros _ Heps Hf. rewrite kl_divergence_mean_square. f_equal.
  unfold flat_mean_divergence. cbn [at_].
  rewrite Rsum_zero.
  - r_simpl. unfold Rdiv. ring.
  - intros i Hi. apply Rsum_zero. intros j Hj.
    apply identical_term_zero; [exact Heps | apply Hf; assumption].
Qed.

Lemma identical_matrices_zero_divergence_witness :
  (0 < 2)%nat /\ 0 < eps_default_R /\
  kl_divergence_mean (const_matrix 2 (1 / 2)) (const_matrix 2 (1 / 2))
                     eps_default_R = Some 0.
Proof.
  split; [lia |]. split; [exact eps_default_R_pos |].
  apply (identical_matrices_zero_divergence 2 (fun _ _ => 1 / 2) eps_default_R).
  - lia.
  - exact eps_default_R_pos.
  - intros. lra.
Defined.

Lemma flat_mean_of_per_row_mean (N : nat) (P_t P_s : tensor R) (eps : R) :
  flat_mean_divergence N P_t P_s eps * INR N
  = per_row_mean_divergence N P_t P_s eps.
Proof.
  unfold flat_mean_divergence, per_row_mean_divergence. r_simpl.
  destruct N as [| n].
  - rewrite sum_upto_0. r_simpl. unfold Rdiv. ring.
  - rewrite mult_INR. field. apply not_0_INR. lia.
Qed.

Lemma flat_mean_differs_from_per_row_mean :
  flat_mean_divergence 2 (const_matrix 2 1) (const_matrix 2 0) 1
  <> per_row_mean_divergence 2 (const_matrix 2 1) (const_matrix 2 0) 1.
Proof.
  rewrite <- flat_mean_of_per_row_mean.
  unfold flat_mean_divergence, const_matrix, divergence_term. cbn [at_].
  rewrite !Rsum_S, !sum_upto_0. r_simpl.
  replace ((1 + 1) / (0 + 1)) with 2 by lra.
  assert (Hln : 0 < ln 2).
  { rewrite <- ln_1. apply ln_increasing; lra. }
  replace (INR (2 * 2)) with 4 by (simpl; lra).
  replace (INR 2) with 2 by (simpl; lra).
  lra.
Qed.

End ExactArithmetic.

(** ** Binary64: the all-zero row *)

Section Binary64.

(** The two zeros of the format are the only values equal to 0. *)
Lemma float_eqb_zero (x : float) :
  PrimFloat.eqb x 0 = true -> x = 0%float \/ x = (-0)%float.
Proof.
  intros Hx. rewrite FloatAxioms.eqb_spec in Hx.
  rewrite <- (SF2Prim_Prim2SF x).
  destruct (Prim2SF x) as [[|] | [|] | | [|] m e];
    first [ left; reflexivity | right; reflexivity | discriminate Hx ].
Qed.

Lemma float_sum_sq_zero (n : nat) (f : nat -> float) :
  (forall k, (k < n)%nat -> PrimFloat.eqb (f k) 0 = true) ->
  sum_upto n (fun k => s_sq (f k)) = 0%float.
Proof.
  induction n as [| n IH]; intros Hf; [reflexivity |].
  rewrite sum_upto_S, IH by (intros; apply Hf; lia).
  destruct (float_eqb_zero (f n)) as [-> | ->];
    [apply Hf; lia | reflexivity | reflexivity].
Qed.

(** C4: in binary64 with eps = 1e-5, a row of the batch whose entries all
    equal zero (either zero of the format) has, after lines 259-261, entries
    that all equal zero; none is a not-a-number, that is, none differs from
    itself.  Nothing after line 261 is involved. *)
Theorem zero_row_normalizes_to_zeros (X : tensor float) (i j : nat) :
  (i < dim0 X)%nat ->
  (forall k, (k < dim1 X)%nat -> PrimFloat.eqb (at_ X i k) 0 = true) ->
  (j < dim1 X)%nat ->
  PrimFloat.eqb (at_ (output_normalized X eps_default_float) i j) 0 = true
  /\ s_ne (at_ (output_normalized X eps_default_float) i j)
          (at_ (output_normalized X eps_default_float) i j) = false.
Proof.
  intros Hi Hrow Hj.
  rewrite output_normalized_at by assumption.
  unfold normalized_entry, row_norm.
  rewrite (float_sum_sq_zero (dim1 X) (fun k => at_ X i k) Hrow).
  destruct (float_eqb_zero (at_ X i j) (Hrow j Hj)) as [-> | ->];
    split; reflexivity.
Qed.

Lemma zero_row_normalizes_to_zeros_witness :
  (0 < dim0 sample_batch_zero_row)%nat /\
  (1 < dim1 sample_batch_zero_row)%nat /\
  PrimFloat.eqb
    (at_ (output_normalized sample_batch_zero_row eps_default_float) 0 1) 0
  = true.
Proof.
  assert (Hi : (0 < dim0 sample_batch_zero_row)%nat) by (cbn; lia).
  assert (Hj : (1 < dim1 sample_batch_zero_row)%nat) by (cbn; lia).
  split; [exact Hi |]. split; [exact Hj |].
  refine (proj1 (zero_row_normalizes_to_zeros sample_batch_zero_row 0 1
                   Hi _ Hj)).
  intros k _. reflexivity.
Defined.

(** What the replacement of line 261 does act on: a row with an infinite
    entry has an infinite norm, and infinity over infinity is a
    not-a-number, which becomes 0. *)
Lemma infinite_entry_replaced :
  let X := mk_tensor 1 2 (fun _ j => if (j =? 0)%nat then infinity else 1%float) in
  s_ne (s_div (at_ X 0 0) (s_add (row_norm X 0) eps_default_float))
       (s_div (at_ X 0 0) (s_add (row_norm X 0) eps_default_float)) = true
  /\ at_ (output_normalized X eps_default_float) 0 0 = 0%float.
Proof. split; reflexivity. Qed.

End Binary64.

(** In exact arithmetic the all-zero row is normalized to zeros as well. *)
Lemma zero_row_normalized_R (X : tensor R) (eps : R) (i j : nat) :
  (0 < eps)%R -> (i < dim0 X)%nat -> zero_row X i -> (j < dim1 X)%nat ->
  at_ (output_normalized X eps) i j = 0%R.
Proof.
  intros Heps Hi Hrow Hj.
  rewrite output_normalized_at, normalized_entry_R by assumption.
  rewrite (Hrow j Hj). cbn [s_zero R_scalar]. unfold Rdiv. ring.
Qed.

(** ** The store: allocation and the in-place writes *)

Section StoreFacts.
Context {A : Type} `{Scalar A} `{ScalarLog A}.

Lemma lookup_snoc_fresh (h : heap A) (o : obj A) :
  (h ++ [o]) !! length h = Some o.
Proof. apply list_lookup_middle. reflexivity. Qed.

(** Resolves the lookup of a location in a store grown by allocations. *)
Ltac find_obj :=
  repeat first [ eassumption
               | apply lookup_snoc_fresh
               | apply lookup_app_l_Some ].

Lemma get_num_run (x : loc) (tx : tensor A) (h : heap A) :
  h !! x = Some (Num tx) -> get_num x h = Some (tx, h).
Proof. intros Hx. unfold get_num. rewrite Hx. reflexivity. Qed.

Lemma torch_map_run (f : A -> A) (x : loc) (tx : tensor A) (h : heap A) :
  h !! x = Some (Num tx) ->
  torch_map f x h = Some (length h, h ++ [Num (t_map f tx)]).
Proof. intros Hx. unfold torch_map, bind, get_num, new. rewrite Hx. reflexivity. Qed.

Lemma torch_sum_run (x : loc) (tx : tensor A) (h : heap A) :
  h !! x = Some (Num tx) ->
  torch_sum_dim1_keepdim x h
  = Some (length h, h ++ [Num (t_sum_dim1_keepdim tx)]).
Proof.
  intros Hx. unfold torch_sum_dim1_keepdim, bind, get_num, new.
  rewrite Hx. reflexivity.
Qed.

Lemma torch_transpose_run (x : loc) (tx : tensor A) (h : heap A) :
  h !! x = Some (Num tx) ->
  torch_transpose x h = Some (length h, h ++ [Num (t_transpose tx)]).
Proof.
  intros Hx. unfold torch_transpose, bind, get_num, new.
  rewrite Hx. reflexivity.
Qed.

Lemma torch_zip_run (f : A -> A -> A) (x y : loc) (tx ty : tensor A) (h : heap A) :
  h !! x = Some (Num tx) -> h !! y = Some (Num ty) ->
  torch_zip f x y h = Some (length h, h ++ [Num (t_zip f tx ty)]).
Proof.
  intros Hx Hy. unfold torch_zip, bind, get_num, new.
  rewrite Hx, Hy. reflexivity.
Qed.

Lemma torch_mm_run (x y : loc) (tx ty : tensor A) (h : heap A) :
  h !! x = Some (Num tx) -> h !! y = Some (Num ty) ->
  torch_mm x y h = Some (length h, h ++ [Num (t_mm tx ty)]).
Proof.
  intros Hx Hy. unfold torch_mm, bind, get_num, new.
  rewrite Hx, Hy. reflexivity.
Qed.

Lemma torch_ne_run (x y : loc) (tx ty : tensor A) (h : heap A) :
  h !! x = Some (Num tx) -> h !! y = Some (Num ty) ->
  torch_ne x y h = Some (length h, h ++ [Mask (t_zip s_ne tx ty)]).
Proof.
  intros Hx Hy. unfold torch_ne, bind, get_num, new.
  rewrite Hx, Hy. reflexivity.
Qed.

(** The write of line 261 lands on the tensor that line 260 allocated. *)
Lemma setitem_mask_run (h : heap A) (tx : tensor A) (tm : tensor bool) (v : A) :
  setitem_mask (length h) (length (h ++ [Num tx])) v
               ((h ++ [Num tx]) ++ [Mask tm])
  = Some (tt, (h ++ [Num (t_masked_fill tx tm v)]) ++ [Mask tm]).
Proof.
  unfold setitem_mask, bind, get_num, get_mask, put.
  rewrite (lookup_app_l_Some _ _ _ _ (lookup_snoc_fresh h (Num tx))).
  rewrite lookup_snoc_fresh.
  rewrite insert_app_l by (rewrite length_app; cbn; lia).
  rewrite <- (Nat.add_0_r (length h)) at 1.
  rewrite insert_app_r. reflexivity.
Qed.

Lemma normalize_in_store_run (x : loc) (tx : tensor A) (eps : A) (h : heap A) :
  h !! x = Some (Num tx) ->
  exists l s,
    normalize_in_store x eps h = Some (l, h ++ s)
    /\ (h ++ s) !! l = Some (Num (output_normalized tx eps))
    /\ (length h <= l)%nat.
Proof.
  intros Hx. unfold normalize_in_store.
  unfold bind at 1. erewrite torch_map_run by find_obj.
  unfold bind at 1. erewrite torch_sum_run by find_obj.
  unfold bind at 1. erewrite torch_map_run by find_obj.
  unfold bind at 1. erewrite torch_map_run by find_obj.
  unfold bind at 1. erewrite torch_zip_run by find_obj.
  unfold bind at 1. erewrite torch_ne_run by find_obj.
  unfold bind at 1. rewrite setitem_mask_run. unfold ret.
  eexists _, [_; _; _; _; _; _].
  split; [| split].
  - f_equal. f_equal. rewrite <- !app_assoc. cbn. reflexivity.
  - rewrite <- !app_assoc. cbn [app].
    rewrite !length_app. cbn [length].
    rewrite lookup_app_r by lia.
    match goal with
    | |- _ !! ?n = _ => replace n with 4%nat by lia
    end.
    reflexivity.
  - rewrite !length_app. cbn. lia.
Qed.

(** The frame of the function: the objects of the caller are the objects of
    the caller afterwards, and the value is that of the function on
    values. *)
Lemma pkt_cosine_similarity_loss_store_run
    (output_s output_t : loc) (xs xt : tensor A) (eps : A) (h : heap A) :
  h !! output_s = Some (Num xs) -> h !! output_t = Some (Num xt) ->
  exists s,
    pkt_cosine_similarity_loss_store output_s output_t eps h
    = Some (pkt_cosine_similarity_loss xs xt eps, h ++ s).
Proof.
  intros Hs Ht. unfold pkt_cosine_similarity_loss_store.
  destruct (normalize_in_store_run output_s xs eps h Hs)
    as (ls & s1 & Hrun1 & Hls & _).
  unfold bind at 1. rewrite Hrun1.
  assert (Ht1 : (h ++ s1) !! output_t = Some (Num xt))
    by (apply lookup_app_l_Some; exact Ht).
  destruct (normalize_in_store_run output_t xt eps (h ++ s1) Ht1)
    as (lt & s2 & Hrun2 & Hlt & _).
  unfold bind at 1. rewrite Hrun2.
  assert (Hls2 : ((h ++ s1) ++ s2) !! ls = Some (Num (output_normalized xs eps)))
    by (apply lookup_app_l_Some; exact Hls).
  set (g := (h ++ s1) ++ s2) in *.
  unfold bind at 1. erewrite torch_transpose_run by find_obj.
  unfold bind at 1. erewrite torch_mm_run by find_obj.
  unfold bind at 1. erewrite torch_transpose_run by find_obj.
  unfold bind at 1. erewrite torch_mm_run by find_obj.
  unfold bind at 1. erewrite torch_map_run by find_obj.
  unfold bind at 1. erewrite torch_map_run by find_obj.
  unfold bind at 1. erewrite torch_map_run by find_obj.
  unfold bind at 1. erewrite torch_map_run by find_obj.
  unfold bind at 1. erewrite torch_sum_run by find_obj.
  unfold bind at 1. erewrite torch_zip_run by find_obj.
  unfold bind at 1. erewrite torch_sum_run by find_obj.
  unfold bind at 1. erewrite torch_zip_run by find_obj.
  unfold bind at 1. erewrite get_num_run by find_obj.
  unfold bind at 1. erewrite get_num_run by find_obj.
  unfold ret.
  eexists (s1 ++ s2 ++ [_; _; _; _; _; _; _; _; _; _; _; _]).
  f_equal. f_equal.
  subst g. rewrite <- !app_assoc. cbn. reflexivity.
Qed.

(** C9: whatever the store and the two argument tensors in it (the same
    tensor twice included), the function returns the value of the loss and
    leaves both arguments, and every other object the caller holds, as they
    were: the writes of lines 261 and 265 go to the tensors that lines 260
    and 264 allocated. *)
Theorem loss_leaves_arguments_unchanged
    (output_s output_t : loc) (xs xt : tensor A) (eps : A) (h : heap A) :
  h !! output_s = Some (Num xs) -> h !! output_t = Some (Num xt) ->
  exists h',
    pkt_cosine_similarity_loss_store output_s output_t eps h
    = Some (pkt_cosine_similarity_loss xs xt eps, h')
    /\ h' !! output_s = Some (Num xs)
    /\ h' !! output_t = Some (Num xt)
    /\ (forall l o, h !! l = Some o -> h' !! l = Some o).
Proof.
  intros Hs Ht.
  destruct (pkt_cosine_similarity_loss_store_run output_s output_t xs xt eps h
              Hs Ht) as [s Hrun].
  exists (h ++ s). split; [exact Hrun |].
  split; [apply lookup_app_l_Some; exact Hs |].
  split; [apply lookup_app_l_Some; exact Ht |].
  intros l o Hl. apply lookup_app_l_Some. exact Hl.
Qed.

End StoreFacts.

Lemma loss_leaves_arguments_unchanged_witness :
  [Num sample_batch] !! 0%nat = Some (Num sample_batch) /\
  exists h',
    pkt_cosine_similarity_loss_store 0 0 eps_default_R [Num sample_batch]
    = Some (pkt_cosine_similarity_loss sample_batch sample_batch eps_default_R, h')
    /\ h' !! 0%nat = Some (Num sample_batch).
Proof.
  split; [reflexivity |].
  destruct (loss_leaves_arguments_unchanged 0 0 sample_batch sample_batch
              eps_default_R [Num sample_batch] eq_refl eq_refl)
    as (h' & Hrun & Hs & _).
  exists h'. split; [exact Hrun | exact Hs].
Defined.

(** ** The schedule *)

Section ScheduleFacts.
Context {A : Type} `{Scalar A}.

Lemma py_getitem_nonneg {X} (l : list X) (i : Z) (x : X) :
  (0 <= i)%Z -> l !! Z.to_nat i = Some x -> py_getitem l i = inr x.
Proof.
  intros Hi Hx. unfold py_getitem.
  assert (Hlt : (Z.to_nat i < length l)%nat)
    by (apply lookup_lt_is_Some; eauto).
  destruct (Z.ltb_spec i 0) as [? | _]; [lia |].
  destruct (Z.leb_spec 0 i) as [_ | ?]; [| lia].
  destruct (Z.ltb_spec i (Z.of_nat (length l))) as [_ | ?]; [| lia].
  cbn [andb]. rewrite Hx. reflexivity.
Qed.

Lemma py_getitem_beyond {X} (l : list X) (i : Z) :
  (Z.of_nat (length l) <= i)%Z -> py_getitem l i = inl IndexError.
Proof.
  intros Hi. unfold py_getitem.
  destruct (Z.ltb_spec i 0) as [? | _]; [lia |].
  destruct (Z.ltb_spec i (Z.of_nat (length l))) as [? | _]; [lia |].
  rewrite andb_false_r. reflexivity.
Qed.

Lemma lr_list_lookup (a b c : A) (k : nat) :
  (k < 200)%nat ->
  ((replicate 100 a ++ replicate 50 b) ++ replicate 50 c) !! k =
  Some (if (k <? 100)%nat then a else if (k <? 150)%nat then b else c).
Proof.
  intros Hk.
  destruct (Nat.ltb_spec k 100) as [H1 | H1].
  - rewrite lookup_app_l by (rewrite length_app, !length_replicate; lia).
    rewrite lookup_app_l by (rewrite length_replicate; lia).
    apply lookup_replicate_2. exact H1.
  - destruct (Nat.ltb_spec k 150) as [H2 | H2].
    + rewrite lookup_app_l by (rewrite length_app, !length_replicate; lia).
      rewrite lookup_app_r by (rewrite length_replicate; lia).
      apply lookup_replicate_2. rewrite length_replicate. lia.
    + rewrite lookup_app_r by (rewrite length_app, !length_replicate; lia).
      apply lookup_replicate_2. rewrite length_app, !length_replicate. lia.
Qed.

Lemma adjust_lr_in_schedule {V} (args : arguments) (optimizer : SGD V) (epoch : Z) :
  (1 <= epoch <= 200)%Z ->
  adjust_lr args optimizer epoch =
  inr (mk_SGD (map (set_lr (scheduled_lr (args_lr args) epoch))
                   (param_groups optimizer))
              (momentum_buffer optimizer)).
Proof.
  intros He. unfold adjust_lr.
  erewrite py_getitem_nonneg; [reflexivity | lia |].
  rewrite lr_list_lookup by lia. f_equal. unfold scheduled_lr.
  destruct (Nat.ltb_spec (Z.to_nat (epoch - 1)) 100);
    destruct (Z.leb_spec epoch 100); try lia; [reflexivity |].
  destruct (Nat.ltb_spec (Z.to_nat (epoch - 1)) 150);
    destruct (Z.leb_spec epoch 150); try lia; reflexivity.
Qed.

Lemma adjust_lr_beyond {V} (args : arguments) (optimizer : SGD V) (epoch : Z) :
  (200 < epoch)%Z -> adjust_lr args optimizer epoch = inl IndexError.
Proof.
  intros He. unfold adjust_lr. rewrite py_getitem_beyond; [reflexivity |].
  rewrite !length_app, !length_replicate. lia.
Qed.

Lemma set_lr_all_groups {V} (lr : A) (gs : list param_group)
    (buf : gmap param_id V) :
  all_groups_have_lr lr (mk_SGD (map (set_lr lr) gs) buf).
Proof.
  unfold all_groups_have_lr. cbn [param_groups].
  induction gs as [| g gs IH]; cbn [map]; constructor;
    [reflexivity | exact IH].
Qed.

End ScheduleFacts.

(** ** The driver: what a run can write *)

Section DriverFacts.
Context {A : Type} `{Scalar A} {V batch : Type}.
Variable autograd : gmap param_id (param V) -> batch -> param_id -> V.
Variable accumulate : option V -> V -> V.
Variable cleared : V -> option V.
Variable sgd_update : param_group (A:=A) -> V -> V -> option V -> V * V.

(** A sequence of in-place changes of parameters leaves a parameter as it
    was when every change aimed at it maps its current value to itself, in
    particular when no change is aimed at it. *)
Lemma foldl_alter_lookup (f : param_id -> param V -> param V)
    (ids : list param_id) (ps : gmap param_id (param V)) (p : param_id) :
  (p ∈ ids -> forall x, ps !! p = Some x -> f p x = x) ->
  foldl (fun ps q => alter (f q) q ps) ps ids !! p = ps !! p.
Proof.
  revert ps. induction ids as [| q ids IH]; intros ps Hfix; [reflexivity |].
  cbn [foldl].
  assert (Hq : alter (f q) q ps !! p = ps !! p).
  { destruct (Nat.eq_dec q p) as [-> | Hne].
    - rewrite lookup_alter_eq.
      destruct (ps !! p) as [x |] eqn:E; [| reflexivity].
      cbn. f_equal. apply Hfix; [apply elem_of_cons; left; reflexivity |].
      reflexivity.
    - apply lookup_alter_ne. exact Hne. }
  rewrite IH; [exact Hq |].
  intros Hin x Hx. rewrite Hq in Hx.
  apply Hfix; [apply elem_of_cons; right; exact Hin | exact Hx].
Qed.

Lemma freeze_lookup (ids : list param_id) (ps : gmap param_id (param V))
    (p : param_id) :
  freeze ids ps !! p =
  if decide (p ∈ ids)
  then (fun x => mk_param (p_data x) false (p_grad x)) <$> ps !! p
  else ps !! p.
Proof.
  unfold freeze. revert ps. induction ids as [| q ids IH]; intros ps.
  - cbn [foldl]. destruct (decide (p ∈ [])) as [Hin | _]; [| reflexivity].
    apply elem_of_nil in Hin. destruct Hin.
  - cbn [foldl]. rewrite IH.
    destruct (Nat.eq_dec q p) as [-> | Hne].
    + rewrite lookup_alter_eq.
      destruct (decide (p ∈ p :: ids)) as [_ | Hn];
        [| exfalso; apply Hn; apply elem_of_cons; left; reflexivity].
      destruct (decide (p ∈ ids)); [| reflexivity].
      destruct (ps !! p); reflexivity.
    + rewrite lookup_alter_ne by exact Hne.
      destruct (decide (p ∈ ids)) as [Hi | Hi];
        destruct (decide (p ∈ q :: ids)) as [Hi' | Hi']; try reflexivity.
      * exfalso. apply Hi'. apply elem_of_cons. right. exact Hi.
      * exfalso. apply elem_of_cons in Hi'.
        destruct Hi' as [-> | Hi']; [apply Hne; reflexivity | apply Hi; exact Hi'].
Qed.

Lemma step_params_lookup (g : param_group) (ids : list param_id)
    (acc : gmap param_id (param V) * gmap param_id V) (p : param_id) :
  p ∉ ids ->
  (foldl (step_param sgd_update g) acc ids).1 !! p = acc.1 !! p.
Proof.
  revert acc. induction ids as [| q ids IH]; intros acc Hp; [reflexivity |].
  apply not_elem_of_cons in Hp. destruct Hp as [Hne Hp].
  cbn [foldl]. rewrite IH by exact Hp.
  unfold step_param.
  destruct (acc.1 !! q) as [x |]; [| reflexivity].
  destruct (p_grad x); [| reflexivity].
  cbn [fst]. apply lookup_insert_ne. congruence.
Qed.

Lemma optimizer_step_lookup (st : state (A:=A) V) (p : param_id) :
  Forall (fun g => p ∉ pg_params g) (param_groups (st_optimizer st)) ->
  st_params (optimizer_step sgd_update st) !! p = st_params st !! p.
Proof.
  unfold optimizer_step. cbn [st_params].
  generalize (momentum_buffer (st_optimizer st)).
  generalize (st_params st).
  induction (param_groups (st_optimizer st)) as [| g gs IH]; intros ps buf Hg;
    [reflexivity |].
  apply Forall_cons in Hg. destruct Hg as [Hg Hgs].
  cbn [foldl].
  destruct (foldl (step_param sgd_update g) (ps, buf) (pg_params g))
    as [ps' buf'] eqn:E.
  rewrite IH by exact Hgs.
  change ps' with (ps', buf').1. rewrite <- E.
  rewrite step_params_lookup by exact Hg. reflexivity.
Qed.

Lemma optimizer_zero_grad_lookup (st : state (A:=A) V) (p : param_id) :
  Forall (fun g => p ∉ pg_params g) (param_groups (st_optimizer st)) ->
  st_params (optimizer_zero_grad cleared st) !! p = st_params st !! p.
Proof.
  intros Hg. unfold optimizer_zero_grad. cbn [st_params].
  apply (foldl_alter_lookup (fun _ => zero_grad_param cleared)).
  intros Hin. exfalso.
  induction (param_groups (st_optimizer st)) as [| g gs IH].
  - cbn in Hin. apply elem_of_nil in Hin. exact Hin.
  - apply Forall_cons in Hg. destruct Hg as [Hg Hgs].
    cbn [map concat] in Hin. apply elem_of_app in Hin.
    destruct Hin as [Hin | Hin]; [exact (Hg Hin) | exact (IH Hgs Hin)].
Qed.

(** [loss.backward()] writes no parameter whose [requires_grad] is off. *)
Lemma loss_backward_lookup (b : batch) (st : state (A:=A) V) (p : param_id) :
  (p ∈ parameters (st_snet st) ++ parameters (st_tnet st) ->
   forall x, st_params st !! p = Some x -> p_requires_grad x = false) ->
  st_params (loss_backward autograd accumulate b st) !! p = st_params st !! p.
Proof.
  intros Hoff. unfold loss_backward. cbn [st_params].
  apply (foldl_alter_lookup (backward_param autograd accumulate (st_params st) b)).
  intros Hin x Hx. unfold backward_param.
  rewrite (Hoff Hin x Hx). reflexivity.
Qed.

Lemma groups_miss (snet_ids : list param_id) (gs : list (param_group (A:=A)))
    (p : param_id) :
  Forall (fun g => pg_params g = snet_ids) gs -> p ∉ snet_ids ->
  Forall (fun g => p ∉ pg_params g) gs.
Proof.
  intros Hgs Hp. induction Hgs as [| g gs Hg _ IH]; constructor;
    [rewrite Hg; exact Hp | exact IH].
Qed.

Lemma adjust_lr_groups (args : arguments (A:=A)) (optimizer optimizer' : SGD V)
    (epoch : Z) (snet_ids : list param_id) :
  adjust_lr args optimizer epoch = inr optimizer' ->
  Forall (fun g => pg_params g = snet_ids) (param_groups optimizer) ->
  Forall (fun g => pg_params g = snet_ids) (param_groups optimizer').
Proof.
  unfold adjust_lr. intros Hrun Hgs.
  destruct (py_getitem _ _) as [e | lr]; [discriminate Hrun |].
  injection Hrun as <-. cbn [param_groups].
  induction Hgs as [| g gs Hg _ IH]; cbn [map]; constructor;
    [exact Hg | exact IH].
Qed.

Section Invariant.
Variables snet_ids tnet_ids : list param_id.
Variable ps0 : gmap param_id (param V).
Hypothesis frozen :
  forall p x, p ∈ tnet_ids -> ps0 !! p = Some x -> p_requires_grad x = false.

Lemma exec_inv (args : arguments (A:=A)) (s : stmt batch) (st st' : state V) :
  driver_inv snet_ids tnet_ids ps0 st ->
  exec autograd accumulate cleared sgd_update args s st = inr st' ->
  driver_inv snet_ids tnet_ids ps0 st'.
Proof.
  intros (Hs & Ht & Hg & Hout) Hexec.
  destruct s as [epoch | | | b | | b | | idx | epoch]; cbn [exec] in Hexec.
  - destruct (adjust_lr args (st_optimizer st) epoch) as [e | opt] eqn:E;
      [discriminate Hexec |].
    injection Hexec as <-. repeat split; cbn; try assumption.
    apply (adjust_lr_groups args _ _ epoch snet_ids E Hg).
  - injection Hexec as <-. repeat split; cbn; assumption.
  - injection Hexec as <-. repeat split; cbn; assumption.
  - injection Hexec as <-. repeat split; assumption.
  - injection Hexec as <-. repeat split; try assumption.
    intros p Hp. rewrite optimizer_zero_grad_lookup; [apply Hout; exact Hp |].
    apply (groups_miss snet_ids); assumption.
  - injection Hexec as <-. repeat split; try assumption.
    intros p Hp. rewrite loss_backward_lookup; [apply Hout; exact Hp |].
    rewrite Hs, Ht. intros Hin x Hx. apply elem_of_app in Hin.
    destruct Hin as [Hin | Hin]; [contradiction |].
    rewrite (Hout p Hp) in Hx. apply (frozen p x Hin Hx).
  - injection Hexec as <-. repeat split; try assumption.
    intros p Hp. rewrite optimizer_step_lookup; [apply Hout; exact Hp |].
    apply (groups_miss snet_ids); assumption.
  - destruct (progress_due (args_print_freq args) idx); [discriminate Hexec |].
    injection Hexec as <-. repeat split; assumption.
  - injection Hexec as <-. repeat split; assumption.
Qed.

Lemma run_inv (args : arguments (A:=A)) (prog : list (stmt batch)) (st : state V) :
  driver_inv snet_ids tnet_ids ps0 st ->
  Forall (driver_inv snet_ids tnet_ids ps0)
         (run autograd accumulate cleared sgd_update args prog st).1.
Proof.
  revert st. induction prog as [| s prog IH]; intros st Hinv; cbn [run].
  - constructor.
  - destruct (exec autograd accumulate cleared sgd_update args s st)
      as [e | st'] eqn:E; cbn [fst].
    + constructor.
    + assert (Hinv' := exec_inv args s st st' Hinv E).
      constructor; [exact Hinv' | apply IH; exact Hinv'].
Qed.

End Invariant.

Lemma main_init_inv (args : arguments (A:=A)) (ps : gmap param_id (param V))
    (snet_ids tnet_ids : list param_id) :
  driver_inv snet_ids tnet_ids (freeze tnet_ids ps)
             (main_init args ps snet_ids tnet_ids).
Proof.
  unfold driver_inv, main_init. cbn.
  repeat split. constructor; [reflexivity | constructor].
Qed.

Lemma freeze_frozen (ps : gmap param_id (param V)) (tnet_ids : list param_id)
    (p : param_id) (x : param V) :
  p ∈ tnet_ids -> freeze tnet_ids ps !! p = Some x -> p_requires_grad x = false.
Proof.
  intros Hin. rewrite freeze_lookup.
  destruct (decide (p ∈ tnet_ids)); [| contradiction].
  destruct (ps !! p) as [y |]; cbn; [| discriminate].
  intros [= <-]. reflexivity.
Qed.

(** C6: when the two networks share no parameter, in every state of a run
    (the state after lines 55-72 and the state after each statement of
    every training batch, every evaluation batch and every epoch, up to the
    end or to an error) each parameter of the teacher is the parameter that
    was loaded, with [requires_grad] off: its data is not written and its
    [.grad] slot receives no gradient; no parameter outside the student's
    differs from what it was after line 72; and every parameter group of the
    optimizer holds the parameters of the student only. *)
Theorem teacher_parameters_never_mutated
    (args : arguments (A:=A)) (ps : gmap param_id (param V))
    (snet_ids tnet_ids : list param_id) (train_loader test_loader : list batch) :
  (forall p, p ∈ tnet_ids -> p ∉ snet_ids) ->
  Forall
    (fun st =>
       (forall p, p ∈ tnet_ids ->
          st_params st !! p
          = (fun x => mk_param (p_data x) false (p_grad x)) <$> ps !! p)
       /\ (forall p, p ∉ snet_ids ->
             st_params st !! p
             = st_params (main_init args ps snet_ids tnet_ids) !! p)
       /\ Forall (fun g => pg_params g = snet_ids)
                 (param_groups (st_optimizer st)))
    (main_init args ps snet_ids tnet_ids ::
     (main autograd accumulate cleared sgd_update args ps snet_ids tnet_ids
           train_loader test_loader).1).
Proof.
  intros Hdis.
  assert (Hall : Forall (driver_inv snet_ids tnet_ids (freeze tnet_ids ps))
            (main_init args ps snet_ids tnet_ids ::
             (main autograd accumulate cleared sgd_update args ps snet_ids
                   tnet_ids train_loader test_loader).1)).
  { constructor; [apply main_init_inv |].
    unfold main. destruct (valid_data_name (args_data_name args));
      [| constructor].
    apply run_inv; [| apply main_init_inv].
    intros p x. apply freeze_frozen. }
  eapply Forall_impl; [exact Hall |].
  intros st (_ & _ & Hg & Hout). split; [| split].
  - intros p Hp. rewrite (Hout p (Hdis p Hp)), freeze_lookup.
    destruct (decide (p ∈ tnet_ids)); [reflexivity | contradiction].
  - intros p Hp. apply Hout. exact Hp.
  - exact Hg.
Qed.

End DriverFacts.

(** ** The schedule and the run on small inputs *)

Lemma scheduled_lr_R (lr : R) (epoch : Z) :
  scheduled_lr lr epoch =
  if (epoch <=? 100)%Z then lr
  else if (epoch <=? 150)%Z then (lr * (1 / 10))%R
  else (lr * (1 / 100))%R.
Proof.
  unfold scheduled_lr.
  destruct (epoch <=? 100)%Z; [reflexivity |].
  destruct (epoch <=? 150)%Z; [reflexivity |].
  cbn [s_mul s_tenth R_scalar]. lra.
Qed.

(** The claim fails in binary64, the arithmetic [adjust_lr] runs in: for
    the base rate 0.1 the rate set at epoch 150 is the product 0.1 * 0.1,
    which is 0.010000000000000002 and not the literal 0.01, and the rate set
    at epoch 199 is 0.1 * 0.1 * 0.1, which is 0.0010000000000000002 and
    neither the literal 0.001 nor the product 0.1 * 0.01. *)
Lemma adjust_lr_binary64_misses_the_literals :
  (exists o,
     adjust_lr sample_args_binary64 sample_optimizer_binary64 150 = inr o
     /\ all_groups_have_lr 0.010000000000000002%float o
     /\ ~ all_groups_have_lr 0.01%float o)
  /\ (exists o,
        adjust_lr sample_args_binary64 sample_optimizer_binary64 199 = inr o
        /\ all_groups_have_lr 0.0010000000000000002%float o
        /\ ~ all_groups_have_lr 0.001%float o
        /\ ~ all_groups_have_lr (s_mul 0.1%float 0.01%float) o).
Proof.
  assert (Hne : forall x y : float,
             PrimFloat.eqb x y = false -> PrimFloat.eqb y y = true -> x <> y).
  { intros x y Hxy Hyy E. rewrite E in Hxy. congruence. }
  split.
  - eexists. split; [reflexivity |]. split.
    + constructor; [reflexivity | constructor].
    + intros Hall. apply Forall_cons in Hall. destruct Hall as [E _].
      revert E. apply Hne; reflexivity.
  - eexists. split; [reflexivity |]. split; [| split].
    + constructor; [reflexivity | constructor].
    + intros Hall. apply Forall_cons in Hall. destruct Hall as [E _].
      revert E. apply Hne; reflexivity.
    + intros Hall. apply Forall_cons in Hall. destruct Hall as [E _].
      revert E. apply Hne; reflexivity.
Qed.

(** C7, as amended: for an epoch from 1 to 200, [adjust_lr] gives every
    parameter group of the optimizer the base rate up to epoch 100, the
    product of the base rate and 0.1 up to epoch 150 and the product of that
    and 0.1 afterwards, each computed in the arithmetic of the program.  In
    binary64, for the base rate 0.1, that is 0.1 at epoch 50,
    0.010000000000000002 at epoch 150 and 0.0010000000000000002 at epoch
    199; in exact arithmetic it is 0.1, 0.01 and 0.001. *)
Theorem adjust_lr_sets_the_scheduled_products
    {A : Type} `{Scalar A} {V : Type}
    (args : arguments (A:=A)) (optimizer : SGD V) (epoch : Z) :
  (1 <= epoch <= 200)%Z ->
  (exists optimizer',
     adjust_lr args optimizer epoch = inr optimizer'
     /\ length (param_groups optimizer') = length (param_groups optimizer)
     /\ all_groups_have_lr
          (if (epoch <=? 100)%Z then args_lr args
           else if (epoch <=? 150)%Z then s_mul (args_lr args) s_tenth
           else s_mul (s_mul (args_lr args) s_tenth) s_tenth)
          optimizer')
  /\ (forall (a : arguments (A:=float)) (o : SGD V),
        exists o50 o150 o199,
          let base := mk_arguments 0.1%float (args_momentum a)
                        (args_weight_decay a) (args_epochs a)
                        (args_print_freq a) (args_data_name a) in
          adjust_lr base o 50 = inr o50
          /\ all_groups_have_lr 0.1%float o50
          /\ adjust_lr base o 150 = inr o150
          /\ all_groups_have_lr 0.010000000000000002%float o150
          /\ adjust_lr base o 199 = inr o199
          /\ all_groups_have_lr 0.0010000000000000002%float o199)
  /\ (forall (a : arguments (A:=R)) (o : SGD V),
        exists o50 o150 o199,
          let base := mk_arguments (1 / 10)%R (args_momentum a)
                        (args_weight_decay a) (args_epochs a)
                        (args_print_freq a) (args_data_name a) in
          adjust_lr base o 50 = inr o50
          /\ all_groups_have_lr (1 / 10)%R o50
          /\ adjust_lr base o 150 = inr o150
          /\ all_groups_have_lr (1 / 100)%R o150
          /\ adjust_lr base o 199 = inr o199
          /\ all_groups_have_lr (1 / 1000)%R o199).
Proof.
  intros He. split; [| split].
  - eexists. split; [apply adjust_lr_in_schedule; exact He |].
    split; [cbn [param_groups]; apply length_map |].
    apply (set_lr_all_groups (scheduled_lr (args_lr args) epoch)).
  - intros a o. eexists _, _, _. cbn zeta.
    rewrite !adjust_lr_in_schedule by lia.
    repeat split; try reflexivity; cbn [args_lr].
    + change 0.1%float with (scheduled_lr 0.1%float 50) at 2.
      apply set_lr_all_groups.
    + change 0.010000000000000002%float with (scheduled_lr 0.1%float 150).
      apply set_lr_all_groups.
    + change 0.0010000000000000002%float with (scheduled_lr 0.1%float 199).
      apply set_lr_all_groups.
  - intros a o. eexists _, _, _. cbn zeta.
    rewrite !adjust_lr_in_schedule by lia.
    repeat split; try reflexivity; cbn [args_lr].
    + apply set_lr_all_groups.
    + rewrite scheduled_lr_R. cbn.
      replace (1 / 10 * (1 / 10))%R with (1 / 100)%R by lra.
      apply set_lr_all_groups.
    + rewrite scheduled_lr_R. cbn.
      replace (1 / 10 * (1 / 100))%R with (1 / 1000)%R by lra.
      apply set_lr_all_groups.
Qed.

Lemma adjust_lr_sets_the_scheduled_products_witness :
  (1 <= 150 <= 200)%Z /\
  exists optimizer',
    adjust_lr sample_args_binary64 sample_optimizer_binary64 150
    = inr optimizer'
    /\ all_groups_have_lr (s_mul 0.1%float s_tenth) optimizer'.
Proof.
  split; [lia |].
  destruct (proj1 (adjust_lr_sets_the_scheduled_products
                     sample_args_binary64 sample_optimizer_binary64 150
                     ltac:(lia)))
    as (o & Hrun & _ & Hlr).
  exists o. split; [exact Hrun | exact Hlr].
Defined.

(** In binary64, the arithmetic of Python, the two products of line 246 and
    247 for the base rate 0.1 are the neighbours of the literals 0.01 and
    0.001. *)
Lemma scheduled_lr_binary64 :
  scheduled_lr 0.1%float 50 = 0.1%float
  /\ scheduled_lr 0.1%float 150 = 0.010000000000000002%float
  /\ scheduled_lr 0.1%float 199 = 0.0010000000000000002%float
  /\ PrimFloat.eqb (scheduled_lr 0.1%float 150) 0.01 = false
  /\ PrimFloat.eqb (scheduled_lr 0.1%float 199) 0.001 = false.
Proof. repeat split; reflexivity. Qed.

(** Python wraps a negative index: [adjust_lr] at epoch 0, which the loop of
    [main] never passes, reads the last entry of the list. *)
Lemma adjust_lr_epoch_zero_wraps :
  adjust_lr sample_args sample_optimizer 0
  = inr (mk_SGD (map (set_lr (1 / 10 * (1 / 10) * (1 / 10))%R)
                     (param_groups sample_optimizer))
                (momentum_buffer sample_optimizer)).
Proof. reflexivity. Qed.

Lemma sample_networks_disjoint :
  forall p : param_id, p ∈ [1%nat] -> p ∉ [0%nat].
Proof.
  intros p Hp Hq. apply list_elem_of_singleton in Hp, Hq. congruence.
Qed.

Lemma teacher_parameters_never_mutated_witness :
  (forall p : param_id, p ∈ [1%nat] -> p ∉ [0%nat]) /\
  Forall
    (fun st => st_params st !! 1%nat = Some (mk_param 5%R false None))
    (main sample_autograd sample_accumulate sample_cleared sample_sgd_update
          sample_args sample_params [0%nat] [1%nat] [2%nat] [3%nat]).1.
Proof.
  split; [exact sample_networks_disjoint |].
  pose proof (teacher_parameters_never_mutated
                sample_autograd sample_accumulate sample_cleared
                sample_sgd_update sample_args sample_params
                [0%nat] [1%nat] [2%nat] [3%nat] sample_networks_disjoint)
    as Hall.
  apply Forall_cons in Hall. destruct Hall as [_ Hall].
  eapply Forall_impl; [exact Hall |].
  intros st (Ht & _). cbn beta.
  rewrite (Ht 1%nat) by (apply list_elem_of_singleton; reflexivity).
  reflexivity.
Defined.

(** The student's parameter does change in that run: after the first
    optimizer step its data is 1 - 0.1 * 2. *)
Lemma sample_student_parameter_changes :
  exists st,
    (main sample_autograd sample_accumulate sample_cleared sample_sgd_update
          sample_args sample_params [0%nat] [1%nat] [2%nat] [3%nat]).1
    !! 5%nat = Some st
    /\ p_data <$> st_params st !! 0%nat = Some (1 - 1 / 10 * (1 + 1))%R.
Proof. eexists. split; reflexivity. Qed.

(** C2: on two (N, N) matrices the estimator is the flat arithmetic mean,
    over all N x N entries, of P_t * log((P_t + eps) / (P_s + eps)), in any
    scalar arithmetic; in exact arithmetic it is the mean of the per-row
    divergences divided once more by N, and the two differ, for instance at
    N = 2 for the all-ones and the all-zeros matrix with eps = 1. *)
Theorem estimator_is_flat_mean :
  (forall (A : Type) (SA : Scalar A) (LA : ScalarLog A)
          (N : nat) (f g : nat -> nat -> A) (eps : A),
      kl_divergence_mean (mk_tensor N N f) (mk_tensor N N g) eps =
      Some (s_div
              (sum_upto N (fun i => sum_upto N (fun j =>
                 s_mul (f i j)
                       (s_log (s_div (s_add (f i j) eps) (s_add (g i j) eps))))))
              (s_of_nat (N * N))))
  /\ (forall (N : nat) (P_t P_s : tensor R) (eps : R),
        (flat_mean_divergence N P_t P_s eps * INR N)%R
        = per_row_mean_divergence N P_t P_s eps)
  /\ flat_mean_divergence 2 (const_matrix 2 1) (const_matrix 2 0) 1%R
     <> per_row_mean_divergence 2 (const_matrix 2 1) (const_matrix 2 0) 1%R.
Proof.
  split; [| split].
  - intros A SA LA N f g eps. apply kl_divergence_mean_square.
  - apply flat_mean_of_per_row_mean.
  - apply flat_mean_differs_from_per_row_mean.
Qed.

(** * Further properties *)

(** ** More on the loss *)

Section LossShape.
Context {A : Type} `{Scalar A} `{ScalarLog A}.

(** Line 280 on two matrices of the same square shape. *)
Lemma kl_divergence_mean_same_shape (N : nat) (P_t P_s : tensor A) (eps : A) :
  dim0 P_t = N -> dim1 P_t = N -> dim0 P_s = N -> dim1 P_s = N ->
  kl_divergence_mean P_t P_s eps = Some (flat_mean_divergence N P_t P_s eps).
Proof.
  intros Et0 Et1 Es0 Es1.
  unfold kl_divergence_mean, broadcastable, bcompat.
  rewrite Et0, Et1, Es0, Es1, Nat.eqb_refl. cbn [orb andb]. f_equal.
  unfold t_mean, flat_mean_divergence, divergence_term.
  unfold t_zip, t_map. cbn [at_ dim0 dim1].
  rewrite Et0, Et1, Es0, Es1, !bdim_same. f_equal.
  apply sum_upto_ext. intros i Hi. apply sum_upto_ext. intros j Hj.
  rewrite !(bidx_lt N i Hi), !(bidx_lt N j Hj). reflexivity.
Qed.

Lemma bcompat_false (a b : nat) :
  bcompat a b = false <-> a <> b /\ a <> 1%nat /\ b <> 1%nat.
Proof.
  unfold bcompat.
  destruct (Nat.eqb_spec a b), (Nat.eqb_spec a 1), (Nat.eqb_spec b 1);
    cbn; split; intros Hx; try discriminate; try reflexivity;
    try (repeat split; assumption); destruct Hx as (? & ? & ?); contradiction.
Qed.

(** X1: the function fails (the RuntimeError of line 280) exactly when the
    two batch sizes differ and neither is 1; the embedding widths play no
    part, and a batch of one row is broadcast against the other without an
    error.  This holds in any scalar arithmetic. *)
Theorem loss_fails_iff_batch_sizes_clash (output_s output_t : tensor A) (eps : A) :
  pkt_cosine_similarity_loss output_s output_t eps = None
  <-> dim0 output_t <> dim0 output_s
      /\ dim0 output_t <> 1%nat /\ dim0 output_s <> 1%nat.
Proof.
  rewrite pkt_cosine_similarity_loss_slices.
  unfold kl_divergence_mean, broadcastable.
  destruct (output_cond_prob_shape output_s eps) as [-> ->].
  destruct (output_cond_prob_shape output_t eps) as [-> ->].
  rewrite andb_diag, <- bcompat_false.
  destruct (bcompat (dim0 output_t) (dim0 output_s)); split; intros Hx;
    try discriminate; reflexivity.
Qed.

End LossShape.

Section LossExact.
#[local] Open Scope R_scope.

Ltac real_ops :=
  unfold s_sq, s_log, R_log;
  cbn [s_zero s_one s_two s_tenth s_of_nat s_add s_mul s_div s_sqrt R_scalar].

Lemma Rsum_const (n : nat) (c : R) : sum_upto n (fun _ => c) = INR n * c.
Proof.
  induction n as [| n IH].
  - rewrite sum_upto_0. real_ops. cbn [INR]. ring.
  - rewrite Rsum_S, IH, S_INR. ring.
Qed.

Lemma rescaled_row_sum_pos (X : tensor R) (eps : R) (i : nat) :
  0 < eps -> (i < dim0 X)%nat -> 0 < rescaled_row_sum X eps i.
Proof.
  intros Heps Hi. pose proof (rescaled_row_sum_half X eps i Heps Hi). lra.
Qed.

(** X2: in exact arithmetic, with a positive eps, every entry of the
    conditional-probability matrix is positive and at most 1. *)
Theorem cond_prob_entries_are_probabilities (X : tensor R) (eps : R) (i j : nat) :
  0 < eps -> (i < dim0 X)%nat -> (j < dim0 X)%nat ->
  0 < at_ (output_cond_prob X eps) i j <= 1.
Proof.
  intros Heps Hi Hj. rewrite output_cond_prob_at by assumption. real_ops.
  pose proof (rescaled_row_sum_pos X eps i Heps Hi) as Hpos.
  pose proof (rescaled_entry_bounds X eps i j Heps) as [Hr _].
  assert (Hle : rescaled_entry X eps i j <= rescaled_row_sum X eps i).
  { unfold rescaled_row_sum.
    apply (Rsum_ge_term (dim0 X) (fun k => rescaled_entry X eps i k) j);
      [| exact Hj].
    intros k _. apply Rlt_le. apply rescaled_entry_bounds; exact Heps. }
  split.
  - apply Rdiv_lt_0_compat; assumption.
  - apply (Rmult_le_reg_r (rescaled_row_sum X eps i)); [exact Hpos |].
    unfold Rdiv. rewrite Rmult_assoc, Rinv_l by lra. lra.
Qed.

(** X3: in exact arithmetic the rescaled cosine matrix of lines 268 and 272
    is symmetric. *)
Theorem cos_sim_symmetric (X : tensor R) (eps : R) (i j : nat) :
  (i < dim0 X)%nat -> (j < dim0 X)%nat ->
  at_ (output_cos_sim X eps) i j = at_ (output_cos_sim X eps) j i.
Proof.
  intros Hi Hj. rewrite !output_cos_sim_at by assumption.
  unfold rescaled_entry, cosine_entry. do 2 f_equal.
  apply sum_upto_ext. intros k _. real_ops. ring.
Qed.

(** X4: in exact arithmetic, with a positive eps, the loss of a non-empty
    batch against itself is exactly 0. *)
Theorem loss_of_identical_batches_is_zero (X : tensor R) (eps : R) :
  0 < eps -> (0 < dim0 X)%nat ->
  pkt_cosine_similarity_loss X X eps = Some 0.
Proof.
  intros Heps HN. rewrite pkt_cosine_similarity_loss_slices.
  destruct (output_cond_prob_shape X eps) as [E0 E1].
  rewrite (kl_divergence_mean_same_shape (dim0 X)) by assumption.
  f_equal. unfold flat_mean_divergence.
  rewrite Rsum_zero.
  - real_ops. unfold Rdiv. ring.
  - intros i Hi. apply Rsum_zero. intros j Hj.
    apply identical_term_zero; [exact Heps |].
    apply Rlt_le. apply cond_prob_entries_are_probabilities; assumption.
Qed.

(** A batch of one row has the conditional-probability matrix [[1]]. *)
Lemma cond_prob_single_row (X : tensor R) (eps : R) :
  0 < eps -> dim0 X = 1%nat -> at_ (output_cond_prob X eps) 0 0 = 1.
Proof.
  intros Heps HN. rewrite output_cond_prob_at by lia.
  unfold rescaled_row_sum. rewrite HN, Rsum_S, sum_upto_0. real_ops.
  pose proof (rescaled_entry_bounds X eps 0 0 Heps) as [Hr _].
  rewrite Rplus_0_l. apply Rdiv_diag. lra.
Qed.

(** X5: in exact arithmetic, with a positive eps, the loss of two batches
    of one row each is 0 whatever the two embeddings are. *)
Theorem loss_of_single_row_batches_is_zero (output_s output_t : tensor R) (eps : R) :
  0 < eps -> dim0 output_s = 1%nat -> dim0 output_t = 1%nat ->
  pkt_cosine_similarity_loss output_s output_t eps = Some 0.
Proof.
  intros Heps Hs Ht. rewrite pkt_cosine_similarity_loss_slices.
  destruct (output_cond_prob_shape output_s eps) as [Es0 Es1].
  destruct (output_cond_prob_shape output_t eps) as [Et0 Et1].
  rewrite (kl_divergence_mean_same_shape 1) by congruence.
  f_equal. unfold flat_mean_divergence.
  rewrite !Rsum_S, !sum_upto_0.
  rewrite !cond_prob_single_row by assumption.
  unfold divergence_term. real_ops.
  rewrite Rdiv_diag by lra. rewrite ln_1. cbn [INR Nat.mul]. lra.
Qed.

(** X6: in exact arithmetic, with a positive eps, an all-zero row of the
    batch gets the uniform distribution 1/N. *)
Theorem zero_row_gives_uniform_row (X : tensor R) (eps : R) (i j : nat) :
  0 < eps -> (i < dim0 X)%nat -> zero_row X i -> (j < dim0 X)%nat ->
  at_ (output_cond_prob X eps) i j = 1 / INR (dim0 X).
Proof.
  intros Heps Hi Hrow Hj. rewrite output_cond_prob_at by assumption.
  assert (Hhalf : forall k, rescaled_entry X eps i k = 1 / 2).
  { intros k. unfold rescaled_entry, cosine_entry.
    rewrite Rsum_zero; [real_ops; lra |].
    intros c Hc. rewrite normalized_entry_R, (Hrow c Hc). real_ops.
    unfold Rdiv. ring. }
  unfold rescaled_row_sum.
  rewrite (sum_upto_ext _ _ (fun _ => 1 / 2)) by (intros; apply Hhalf).
  rewrite Rsum_const, Hhalf. real_ops.
  assert (HN : INR (dim0 X) <> 0) by (apply not_0_INR; lia).
  field. exact HN.
Qed.

End LossExact.

Section LossBinary64.

(** X7: in binary64, after line 261 no entry of the normalized batch is a
    not-a-number, whatever the batch holds (infinities and not-a-numbers
    included) and whatever eps is. *)
Theorem normalized_batch_has_no_nan (X : tensor float) (eps : float) (i j : nat) :
  (i < dim0 X)%nat -> (j < dim1 X)%nat ->
  s_ne (at_ (output_normalized X eps) i j)
       (at_ (output_normalized X eps) i j) = false.
Proof.
  intros Hi Hj. rewrite output_normalized_at by assumption.
  unfold normalized_entry, nan_to_zero.
  set (y := s_div (at_ X i j) (s_add (row_norm X i) eps)).
  destruct (s_ne y y) eqn:E; [reflexivity | exact E].
Qed.

End LossBinary64.

(** ** More on the schedule *)

Section ScheduleMore.
Context {A : Type} `{Scalar A} {V : Type}.

Lemma py_getitem_wrap {X} (l : list X) (i : Z) :
  (- Z.of_nat (length l) <= i < 0)%Z ->
  py_getitem l i = py_getitem l (Z.of_nat (length l) + i).
Proof.
  intros Hi. unfold py_getitem.
  destruct (Z.ltb_spec i 0) as [_ | ?]; [| lia].
  destruct (Z.ltb_spec (Z.of_nat (length l) + i) 0) as [? | _]; [lia |].
  reflexivity.
Qed.

Lemma py_getitem_below {X} (l : list X) (i : Z) :
  (i < - Z.of_nat (length l))%Z -> py_getitem l i = inl IndexError.
Proof.
  intros Hi. unfold py_getitem.
  destruct (Z.ltb_spec i 0) as [_ | ?]; [| lia].
  destruct (Z.leb_spec 0 (Z.of_nat (length l) + i)) as [? | _]; [lia |].
  reflexivity.
Qed.

Lemma lr_list_length (a b c : A) :
  length ((replicate 100 a ++ replicate 50 b) ++ replicate 50 c) = 200%nat.
Proof. rewrite !length_app, !length_replicate. reflexivity. Qed.

(** X8: [adjust_lr] raises IndexError exactly for the epochs below -199 and
    above 200. *)
Theorem adjust_lr_error_domain (args : arguments (A:=A)) (optimizer : SGD V)
    (epoch : Z) :
  adjust_lr args optimizer epoch = inl IndexError
  <-> (epoch < -199 \/ 200 < epoch)%Z.
Proof.
  split.
  - intros Herr.
    destruct (Z_lt_dec epoch (-199)) as [? | H1]; [left; assumption |].
    destruct (Z_lt_dec 200 epoch) as [? | H2]; [right; assumption |].
    exfalso. revert Herr. unfold adjust_lr.
    destruct (Z_lt_dec epoch 1) as [Hneg | Hpos].
    + rewrite py_getitem_wrap by (rewrite lr_list_length; lia).
      rewrite lr_list_length.
      erewrite py_getitem_nonneg; [discriminate | lia |].
      apply lr_list_lookup. lia.
    + erewrite py_getitem_nonneg; [discriminate | lia |].
      apply lr_list_lookup. lia.
  - intros [Hlo | Hhi]; [| apply adjust_lr_beyond; exact Hhi].
    unfold adjust_lr. rewrite py_getitem_below; [reflexivity |].
    rewrite lr_list_length. lia.
Qed.

(** X9: for an epoch from -199 to 0 the index of line 249 is negative and
    counts from the end of the list: [adjust_lr] does what it does 200
    epochs later. *)
Theorem adjust_lr_wraps_below_one (args : arguments (A:=A)) (optimizer : SGD V)
    (epoch : Z) :
  (-199 <= epoch <= 0)%Z ->
  adjust_lr args optimizer epoch = adjust_lr args optimizer (epoch + 200).
Proof.
  intros He. unfold adjust_lr.
  rewrite py_getitem_wrap by (rewrite lr_list_length; lia).
  rewrite lr_list_length.
  replace (Z.of_nat 200 + (epoch - 1))%Z with (epoch + 200 - 1)%Z by lia.
  reflexivity.
Qed.

Lemma set_lr_set_lr (lr lr' : A) (gs : list (param_group (A:=A))) :
  map (set_lr lr') (map (set_lr lr) gs) = map (set_lr lr') gs.
Proof. rewrite map_map. apply map_ext. intros g. reflexivity. Qed.

(** X10: the rate [adjust_lr] sets does not depend on the rate it finds
    (the decay does not compound over the calls), and the call leaves the
    parameters, the momentum, the weight decay and the nesterov flag of
    every group, and the momentum buffers, as they were. *)
Theorem adjust_lr_does_not_compound (args : arguments (A:=A))
    (optimizer optimizer' : SGD V) (epoch epoch' : Z) :
  adjust_lr args optimizer epoch = inr optimizer' ->
  adjust_lr args optimizer' epoch' = adjust_lr args optimizer epoch'
  /\ map pg_params (param_groups optimizer')
     = map pg_params (param_groups optimizer)
  /\ map pg_momentum (param_groups optimizer')
     = map pg_momentum (param_groups optimizer)
  /\ map pg_weight_decay (param_groups optimizer')
     = map pg_weight_decay (param_groups optimizer)
  /\ map pg_nesterov (param_groups optimizer')
     = map pg_nesterov (param_groups optimizer)
  /\ momentum_buffer optimizer' = momentum_buffer optimizer.
Proof.
  unfold adjust_lr. intros Hrun.
  destruct (py_getitem _ (epoch - 1)) as [e | lr]; [discriminate Hrun |].
  injection Hrun as <-. cbn [param_groups momentum_buffer].
  split.
  - destruct (py_getitem _ (epoch' - 1)) as [e | lr']; [reflexivity |].
    rewrite set_lr_set_lr. reflexivity.
  - rewrite !map_map. repeat split.
Qed.

End ScheduleMore.

(** X11: in exact arithmetic, for a non-negative base rate, the rate set
    at a later epoch of the schedule is never above the rate set at an
    earlier one, and never negative. *)
Theorem adjust_lr_never_raises_the_rate {V : Type}
    (args : arguments (A:=R)) (optimizer : SGD V) (epoch1 epoch2 : Z) :
  (0 <= args_lr args)%R -> (1 <= epoch1)%Z -> (epoch1 <= epoch2)%Z ->
  (epoch2 <= 200)%Z ->
  exists lr1 lr2 o1 o2,
    adjust_lr args optimizer epoch1 = inr o1 /\ all_groups_have_lr lr1 o1
    /\ adjust_lr args optimizer epoch2 = inr o2 /\ all_groups_have_lr lr2 o2
    /\ (0 <= lr2 <= lr1)%R.
Proof.
  intros Hlr H1 H12 H2.
  exists (scheduled_lr (args_lr args) epoch1), (scheduled_lr (args_lr args) epoch2).
  eexists _, _.
  rewrite !adjust_lr_in_schedule by lia.
  split; [reflexivity |]. split; [apply set_lr_all_groups |].
  split; [reflexivity |]. split; [apply set_lr_all_groups |].
  rewrite !scheduled_lr_R.
  destruct (Z.leb_spec epoch1 100), (Z.leb_spec epoch2 100),
    (Z.leb_spec epoch1 150), (Z.leb_spec epoch2 150); try lia; lra.
Qed.

(** ** More on the driver *)

Section DriverMore.
Context {A : Type} `{Scalar A} {V batch : Type}.
Variable autograd : gmap param_id (param V) -> batch -> param_id -> V.
Variable accumulate : option V -> V -> V.
Variable cleared : V -> option V.
Variable sgd_update : param_group (A:=A) -> V -> V -> option V -> V * V.

Abbreviation run' := (run autograd accumulate cleared sgd_update).
Abbreviation exec' := (exec autograd accumulate cleared sgd_update).











(** *** Where a run stops *)


















(** Only [adjust_lr] writes the parameter groups. *)
Lemma exec_keeps_groups (args : arguments) (s : stmt batch) (st st' : state V) :
  sets_no_rate s -> exec' args s st = inr st' ->
  param_groups (st_optimizer st') = param_groups (st_optimizer st).
Proof.
  intros Hs Hexec.
  destruct s as [epoch | | | b | | b | | idx | epoch]; cbn [exec] in Hexec;
    try (injection Hexec as <-; reflexivity).
  - destruct Hs.
  - destruct (progress_due (args_print_freq args) idx);
      [discriminate Hexec | injection Hexec as <-; reflexivity].
Qed.

Lemma run_keeps_groups (args : arguments) (prog : list (stmt batch))
    (st : state V) :
  Forall sets_no_rate prog ->
  Forall (fun st' => param_groups (st_optimizer st')
                     = param_groups (st_optimizer st))
         (run' args prog st).1.
Proof.
  intros Hp. revert st. induction Hp as [| s prog Hs _ IH]; intros st;
    cbn [run]; [constructor |].
  destruct (exec' args s st) as [e | st'] eqn:E; cbn [fst]; [constructor |].
  pose proof (exec_keeps_groups args s st st' Hs E) as Hg.
  constructor; [exact Hg |].
  eapply Forall_impl; [apply IH |]. cbn beta. intros st'' Hst''. congruence.
Qed.

Lemma epoch_rest_sets_no_rate (train_loader test_loader : list batch) (e : Z) :
  Forall sets_no_rate
    (train train_loader ++ test test_loader ++ [@SaveCheckpoint batch e]).
Proof.
  apply Forall_app. split; [| apply Forall_app; split].
  - unfold train. constructor; [exact I |].
    induction (enumerate_from_1 train_loader) as [| ib l IH];
      cbn [map concat]; [constructor |].
    repeat (constructor; [exact I |]). exact IH.
  - unfold test. constructor; [exact I |].
    induction test_loader as [| b bs IH]; cbn [map]; constructor;
      [exact I | exact IH].
  - constructor; [exact I | constructor].
Qed.

(** X14: the rate set at the start of an epoch of the schedule is the rate
    of every parameter group in every state of that epoch: no other
    statement of the epoch writes it. *)
Theorem epoch_runs_at_scheduled_rate (args : arguments (A:=A))
    (train_loader test_loader : list batch) (e : nat) (st : state V) :
  (1 <= e <= 200)%nat ->
  Forall (fun st' => all_groups_have_lr
                       (scheduled_lr (args_lr args) (Z.of_nat e))
                       (st_optimizer st'))
    (run' args
       (AdjustLr (Z.of_nat e) :: train train_loader ++ test test_loader
        ++ [SaveCheckpoint (Z.of_nat e)]) st).1.
Proof.
  intros He. cbn [run exec].
  rewrite adjust_lr_in_schedule by lia. cbn [fst].
  set (st1 := mk_state _ _ _ _).
  assert (H1 : all_groups_have_lr (scheduled_lr (args_lr args) (Z.of_nat e))
                 (st_optimizer st1)) by apply set_lr_all_groups.
  constructor; [exact H1 |].
  eapply Forall_impl;
    [apply run_keeps_groups; apply epoch_rest_sets_no_rate |].
  cbn beta. intros st' Hst'. unfold all_groups_have_lr in *.
  rewrite Hst'. exact H1.
Qed.

(** *** A parameter that requires no gradient and has none *)

Lemma step_params_keep (g : param_group) (ids : list param_id)
    (acc : gmap param_id (param V) * gmap param_id V)
    (p : param_id) (x : param V) :
  p_grad x = None -> acc.1 !! p = Some x ->
  (foldl (step_param sgd_update g) acc ids).1 !! p = Some x.
Proof.
  intros Hx. revert acc. induction ids as [| q ids IH]; intros acc Hp;
    [exact Hp |].
  cbn [foldl]. apply IH. unfold step_param.
  destruct (acc.1 !! q) as [y |] eqn:Eq; [| exact Hp].
  destruct (p_grad y) as [d |] eqn:Ed; [| exact Hp].
  cbn [fst]. rewrite lookup_insert_ne; [exact Hp |].
  intros ->. rewrite Hp in Eq. injection Eq as <-. congruence.
Qed.

Lemma optimizer_step_keep (st : state V) (p : param_id) (x : param V) :
  p_grad x = None -> st_params st !! p = Some x ->
  st_params (optimizer_step sgd_update st) !! p = Some x.
Proof.
  intros Hx. unfold optimizer_step. cbn [st_params].
  generalize (momentum_buffer (st_optimizer st)).
  generalize (st_params st).
  induction (param_groups (st_optimizer st)) as [| g gs IH]; intros ps buf Hp;
    [exact Hp |].
  cbn [foldl].
  destruct (foldl (step_param sgd_update g) (ps, buf) (pg_params g))
    as [ps' buf'] eqn:E.
  apply IH. change ps' with (ps', buf').1. rewrite <- E.
  apply step_params_keep; assumption.
Qed.

Lemma exec_keeps_frozen (args : arguments) (s : stmt batch) (st st' : state V)
    (p : param_id) (x : param V) :
  p_requires_grad x = false -> p_grad x = None ->
  st_params st !! p = Some x -> exec' args s st = inr st' ->
  st_params st' !! p = Some x.
Proof.
  intros Hrg Hgrad Hp Hexec.
  destruct s as [epoch | | | b | | b | | idx | epoch]; cbn [exec] in Hexec.
  - destruct (adjust_lr args (st_optimizer st) epoch); [discriminate Hexec |].
    injection Hexec as <-. exact Hp.
  - injection Hexec as <-. exact Hp.
  - injection Hexec as <-. exact Hp.
  - injection Hexec as <-. exact Hp.
  - injection Hexec as <-. unfold optimizer_zero_grad. cbn [st_params].
    rewrite (foldl_alter_lookup (fun _ => zero_grad_param cleared));
      [exact Hp |].
    intros _ y Hy. rewrite Hp in Hy. injection Hy as <-.
    unfold zero_grad_param. rewrite Hgrad. destruct x. cbn in *. congruence.
  - injection Hexec as <-. rewrite loss_backward_lookup; [exact Hp |].
    intros _ y Hy. rewrite Hp in Hy. injection Hy as <-. exact Hrg.
  - injection Hexec as <-. apply optimizer_step_keep; assumption.
  - destruct (progress_due (args_print_freq args) idx);
      [discriminate Hexec | injection Hexec as <-; exact Hp].
  - injection Hexec as <-. exact Hp.
Qed.

Lemma run_keeps_frozen (args : arguments (A:=A))
    (prog : list (stmt batch)) (st : state V) (p : param_id) (x : param V) :
  p_requires_grad x = false -> p_grad x = None ->
  st_params st !! p = Some x ->
  Forall (fun st' => st_params st' !! p = Some x) (run' args prog st).1.
Proof.
  intros Hrg Hgrad. revert st.
  induction prog as [| s prog IH]; intros st Hp; cbn [run]; [constructor |].
  destruct (exec' args s st) as [e | st'] eqn:E; cbn [fst]; [constructor |].
  pose proof (exec_keeps_frozen args s st st' p x Hrg Hgrad Hp E) as Hp'.
  constructor; [exact Hp' | apply IH; exact Hp'].
Qed.

(** X15: a parameter whose [requires_grad] is off and whose [.grad] slot is
    empty is the same in every state of every sequence of statements of the
    driver, whichever network or parameter group holds it: [zero_grad],
    [backward] and the optimizer step all pass it by. *)
Theorem frozen_parameter_never_changes (args : arguments (A:=A))
    (prog : list (stmt batch)) (st : state V) (p : param_id) (x : param V) :
  p_requires_grad x = false -> p_grad x = None ->
  st_params st !! p = Some x ->
  Forall (fun st' => st_params st' !! p = Some x) (run' args prog st).1.
Proof. apply run_keeps_frozen. Qed.

(** X16: a parameter of the teacher that is loaded without a gradient stays
    as loaded, with [requires_grad] off, in every state of a run of [main],
    even when the student holds the same parameter and the optimizer is
    built on it. *)
Theorem shared_teacher_parameter_stays_frozen (args : arguments (A:=A))
    (ps : gmap param_id (param V)) (snet_ids tnet_ids : list param_id)
    (train_loader test_loader : list batch) (p : param_id) (x : param V) :
  p ∈ tnet_ids -> ps !! p = Some x -> p_grad x = None ->
  Forall (fun st => st_params st !! p = Some (mk_param (p_data x) false None))
    (main autograd accumulate cleared sgd_update args ps snet_ids tnet_ids
          train_loader test_loader).1.
Proof.
  intros Hin Hp Hgrad. unfold main.
  destruct (valid_data_name (args_data_name args)); [| constructor].
  apply run_keeps_frozen; [reflexivity | reflexivity |].
  unfold main_init. cbn [st_params]. rewrite freeze_lookup.
  destruct (decide (p ∈ tnet_ids)); [| contradiction].
  rewrite Hp. cbn. rewrite Hgrad. reflexivity.
Qed.

End DriverMore.

(** ** The name of a checkpoint file *)

Example checkpoint_name_7 :
  checkpoint_name (lit "./results") (lit "resnet110") (lit "resnet20") 7
  = lit "./results/checkpoint/pkt_r110_r20_007.ckp".
Proof. reflexivity. Qed.

Lemma zeros_digits (k : nat) (d : Decimal.uint) :
  replicate k "0"%char ++ list_ascii_of_string (NilEmpty.string_of_uint d)
  = list_ascii_of_string (NilEmpty.string_of_uint (Nat.iter k Decimal.D0 d)).
Proof.
  induction k as [| k IH]; [reflexivity |].
  cbn [replicate app Nat.iter nat_rect]. rewrite IH. reflexivity.
Qed.

Lemma list_ascii_of_string_inj (s1 s2 : string) :
  list_ascii_of_string s1 = list_ascii_of_string s2 -> s1 = s2.
Proof.
  intros E. rewrite <- (string_of_list_ascii_of_string s1),
    <- (string_of_list_ascii_of_string s2), E. reflexivity.
Qed.

Lemma to_uint_normal (n : nat) : Decimal.unorm (Nat.to_uint n) = Nat.to_uint n.
Proof.
  rewrite <- (Unsigned.to_of (Nat.to_uint n)), Unsigned.of_to. reflexivity.
Qed.

Lemma format_right_zero_3_inj (n1 n2 : nat) :
  format_right_zero_3 (py_str_nat n1) = format_right_zero_3 (py_str_nat n2) ->
  n1 = n2.
Proof.
  unfold format_right_zero_3, py_str_nat. rewrite !zeros_digits. intros E.
  apply list_ascii_of_string_inj in E.
  assert (E' : Some (Nat.iter (3 - length (list_ascii_of_string
                  (NilEmpty.string_of_uint (Nat.to_uint n1)))) Decimal.D0
                  (Nat.to_uint n1))
             = Some (Nat.iter (3 - length (list_ascii_of_string
                  (NilEmpty.string_of_uint (Nat.to_uint n2)))) Decimal.D0
                  (Nat.to_uint n2))).
  { rewrite <- !NilEmpty.usu, E. reflexivity. }
  injection E' as E'.
  apply (f_equal Decimal.unorm) in E'.
  rewrite !unorm_iter_D0, !to_uint_normal in E'.
  apply Unsigned.to_uint_inj. exact E'.
Qed.

Lemma path_join2_checkpoint_last (save_root : list ascii) :
  last (path_join2 save_root (lit "checkpoint")) = Some "t"%char.
Proof.
  unfold path_join2. cbn [lit list_ascii_of_string].
  destruct (last save_root) as [c |]; [| rewrite last_app; reflexivity].
  destruct c as [[|] [|] [|] [|] [|] [|] [|] [|]];
    rewrite last_app; reflexivity.
Qed.

Lemma checkpoint_name_inj (save_root t_name s_name : list ascii)
    (epoch1 epoch2 : nat) :
  checkpoint_name save_root t_name s_name epoch1
  = checkpoint_name save_root t_name s_name epoch2 ->
  epoch1 = epoch2.
Proof.
  unfold checkpoint_name, os_path_join. cbn [fold_left].
  set (dir := path_join2 save_root (lit "checkpoint")).
  assert (Hjoin : forall name,
             path_join2 dir (lit "pkt_r" ++ name) = dir ++ "/"%char :: lit "pkt_r" ++ name).
  { intros name. unfold path_join2. cbn [lit list_ascii_of_string app].
    unfold dir. rewrite path_join2_checkpoint_last. reflexivity. }
  rewrite !Hjoin. intros E.
  repeat first [ apply app_inv_head in E | injection E as E ].
  apply app_inv_tail in E.
  apply format_right_zero_3_inj. exact E.
Qed.


(** X17: for a given save root and given network names, the checkpoints of
    two different epochs go to two different files. *)
Theorem checkpoint_names_differ (save_root t_name s_name : list ascii)
    (epoch1 epoch2 : nat) :
  epoch1 <> epoch2 ->
  checkpoint_name save_root t_name s_name epoch1
  <> checkpoint_name save_root t_name s_name epoch2.
Proof.
  intros Hne E. apply Hne.
  apply (checkpoint_name_inj save_root t_name s_name). exact E.
Qed.

(** ** The progress lines of [train] *)

Lemma progress_from_nonzero (print_freq : Z) (idx n : nat) :
  print_freq <> 0%Z ->
  progress_from print_freq idx n
  = inr (List.filter (fun i => (i mod Z.to_nat (Z.abs print_freq) =? 0)%nat)
                     (seq idx n)).
Proof.
  intros Hpf. revert idx. induction n as [| n IH]; intros idx; [reflexivity |].
  cbn [progress_from seq]. unfold progress_due.
  destruct (Z.eqb_spec print_freq 0) as [? | _]; [contradiction |].
  rewrite IH. f_equal.
  assert (E : (Z.of_nat idx mod print_freq =? 0)%Z
              = (idx mod Z.to_nat (Z.abs print_freq) =? 0)%nat).
  { destruct (Z.eqb_spec (Z.of_nat idx mod print_freq) 0) as [Hz | Hz];
      destruct (Nat.eqb_spec (idx mod Z.to_nat (Z.abs print_freq)) 0) as [Hn | Hn];
      try reflexivity; exfalso.
    - apply Hn. apply Z.mod_divide in Hz; [| exact Hpf].
      apply Nat.Div0.mod_divides.
      destruct Hz as [q Hq].
      exists (Z.to_nat (Z.abs q)). nia.
    - apply Hz. apply Z.mod_divide; [exact Hpf |].
      apply Nat.Div0.mod_divides in Hn. destruct Hn as [q Hq].
      exists (Z.of_nat q * Z.sgn print_freq)%Z. nia. }
  rewrite E. cbn [List.filter].
  destruct (idx mod Z.to_nat (Z.abs print_freq) =? 0)%nat; reflexivity.
Qed.

Lemma multiples_upto (k n : nat) :
  (0 < k)%nat ->
  length (List.filter (fun i => (i mod k =? 0)%nat) (seq 1 n)) = (n / k)%nat.
Proof.
  intros Hk. induction n as [| n IH]; [symmetry; apply Nat.Div0.div_0_l |].
  rewrite seq_S, List.filter_app, length_app, IH. cbn [List.filter Nat.add].
  pose proof (Nat.div_mod_eq n k) as Hn.
  pose proof (Nat.mod_upper_bound n k ltac:(lia)) as Hr.
  destruct (Nat.eqb_spec (S n mod k) 0) as [Hz | Hz]; cbn [length].
  - apply Nat.Div0.mod_divides in Hz. destruct Hz as [q Hq].
    destruct q as [| q']; [rewrite Nat.mul_0_r in Hq; discriminate Hq |].
    rewrite Hq, Nat.mul_comm, Nat.div_mul by lia.
    rewrite Nat.mul_succ_r in Hq.
    assert (q' = n / k)%nat; [| lia].
    apply (Nat.div_unique n k q' (k - 1)); lia.
  - rewrite Nat.add_0_r.
    apply (Nat.div_unique (S n) k (n / k) (S (n mod k))); [| lia].
    destruct (Nat.eq_dec (S (n mod k)) k) as [Ek | Ek]; [| lia].
    exfalso. apply Hz. apply Nat.Div0.mod_divides.
    exists (S (n / k)). nia.
Qed.

(** X18: with a non-zero print frequency, [train] prints a line after
    exactly the batches whose index, counted from 1, is a multiple of the
    absolute value of the frequency: n / |print_freq| lines for n batches. *)
Theorem train_progress_lines (print_freq : Z) (n : nat) :
  print_freq <> 0%Z ->
  exists lines,
    train_progress print_freq n = inr lines
    /\ (forall idx, In idx lines <->
          (1 <= idx <= n)%nat /\ (Z.abs print_freq | Z.of_nat idx)%Z)
    /\ length lines = (n / Z.to_nat (Z.abs print_freq))%nat.
Proof.
  intros Hpf. eexists. split; [apply progress_from_nonzero; exact Hpf |].
  split.
  - intros idx. rewrite filter_In, in_seq, Nat.eqb_eq.
    rewrite Nat.Div0.mod_divides.
    split; intros [Hr Hd]; (split; [lia |]).
    + destruct Hd as [q Hq]. exists (Z.of_nat q). nia.
    + destruct Hd as [q Hq]. exists (Z.to_nat (Z.abs q)). nia.
  - apply multiples_upto. lia.
Qed.

(** X19: the test of line 197 raises ZeroDivisionError exactly when the
    print frequency is 0 and the loader has a batch, and then at the first
    batch. *)
Theorem train_progress_error (print_freq : Z) (n : nat) :
  train_progress print_freq n = inl ZeroDivisionError
  <-> print_freq = 0%Z /\ (0 < n)%nat.
Proof.
  split.
  - intros Herr. destruct (Z.eq_dec print_freq 0%Z) as [-> | Hpf].
    + split; [reflexivity |]. destruct n as [| n]; [discriminate Herr | lia].
    + unfold train_progress in Herr.
      rewrite progress_from_nonzero in Herr by exact Hpf. discriminate Herr.
  - intros [-> Hn]. destruct n as [| n]; [lia |]. reflexivity.
Qed.

(** ** The further properties on small inputs *)

Lemma cond_prob_entries_are_probabilities_witness :
  (0 < eps_default_R)%R /\ (0 < dim0 sample_batch)%nat
  /\ (1 < dim0 sample_batch)%nat
  /\ (0 < at_ (output_cond_prob sample_batch eps_default_R) 0 1 <= 1)%R.
Proof.
  assert (H0 : (0 < dim0 sample_batch)%nat) by (cbn; lia).
  assert (H1 : (1 < dim0 sample_batch)%nat) by (cbn; lia).
  split; [exact eps_default_R_pos |]. split; [exact H0 |]. split; [exact H1 |].
  exact (cond_prob_entries_are_probabilities sample_batch eps_default_R 0 1
           eps_default_R_pos H0 H1).
Defined.

Lemma cos_sim_symmetric_witness :
  (0 < dim0 sample_batch)%nat /\ (1 < dim0 sample_batch)%nat
  /\ at_ (output_cos_sim sample_batch eps_default_R) 0 1
     = at_ (output_cos_sim sample_batch eps_default_R) 1 0.
Proof.
  assert (H0 : (0 < dim0 sample_batch)%nat) by (cbn; lia).
  assert (H1 : (1 < dim0 sample_batch)%nat) by (cbn; lia).
  split; [exact H0 |]. split; [exact H1 |].
  exact (cos_sim_symmetric sample_batch eps_default_R 0 1 H0 H1).
Defined.

Lemma loss_of_identical_batches_is_zero_witness :
  (0 < eps_default_R)%R /\ (0 < dim0 sample_batch)%nat
  /\ pkt_cosine_similarity_loss sample_batch sample_batch eps_default_R
     = Some 0%R.
Proof.
  assert (H0 : (0 < dim0 sample_batch)%nat) by (cbn; lia).
  split; [exact eps_default_R_pos |]. split; [exact H0 |].
  exact (loss_of_identical_batches_is_zero sample_batch eps_default_R
           eps_default_R_pos H0).
Defined.

Lemma loss_of_single_row_batches_is_zero_witness :
  (0 < eps_default_R)%R /\ dim0 sample_single_row = 1%nat
  /\ dim0 (const_matrix 1 7) = 1%nat
  /\ pkt_cosine_similarity_loss sample_single_row (const_matrix 1 7)
                                eps_default_R = Some 0%R.
Proof.
  split; [exact eps_default_R_pos |]. split; [reflexivity |].
  split; [reflexivity |].
  exact (loss_of_single_row_batches_is_zero sample_single_row (const_matrix 1 7)
           eps_default_R eps_default_R_pos eq_refl eq_refl).
Defined.

Lemma sample_zero_row_R_zero : zero_row sample_zero_row_R 0.
Proof. intros j _. reflexivity. Qed.

Lemma zero_row_gives_uniform_row_witness :
  (0 < eps_default_R)%R /\ (0 < dim0 sample_zero_row_R)%nat
  /\ zero_row sample_zero_row_R 0 /\ (1 < dim0 sample_zero_row_R)%nat
  /\ at_ (output_cond_prob sample_zero_row_R eps_default_R) 0 1
     = (1 / INR (dim0 sample_zero_row_R))%R.
Proof.
  assert (H0 : (0 < dim0 sample_zero_row_R)%nat) by (cbn; lia).
  assert (H1 : (1 < dim0 sample_zero_row_R)%nat) by (cbn; lia).
  split; [exact eps_default_R_pos |]. split; [exact H0 |].
  split; [exact sample_zero_row_R_zero |]. split; [exact H1 |].
  exact (zero_row_gives_uniform_row sample_zero_row_R eps_default_R 0 1
           eps_default_R_pos H0 sample_zero_row_R_zero H1).
Defined.

Lemma normalized_batch_has_no_nan_witness :
  (0 < dim0 sample_batch_inf)%nat /\ (0 < dim1 sample_batch_inf)%nat
  /\ s_ne (at_ (output_normalized sample_batch_inf eps_default_float) 0 0)
          (at_ (output_normalized sample_batch_inf eps_default_float) 0 0)
     = false.
Proof.
  assert (H0 : (0 < dim0 sample_batch_inf)%nat) by (cbn; lia).
  assert (H1 : (0 < dim1 sample_batch_inf)%nat) by (cbn; lia).
  split; [exact H0 |]. split; [exact H1 |].
  exact (normalized_batch_has_no_nan sample_batch_inf eps_default_float 0 0
           H0 H1).
Defined.

Lemma adjust_lr_wraps_below_one_witness :
  (-199 <= 0 <= 0)%Z /\
  adjust_lr sample_args sample_optimizer 0
  = adjust_lr sample_args sample_optimizer (0 + 200).
Proof.
  split; [lia |].
  apply (adjust_lr_wraps_below_one sample_args sample_optimizer 0). lia.
Defined.

Lemma sample_adjust_lr_150 :
  adjust_lr sample_args sample_optimizer 150
  = inr (mk_SGD (map (set_lr (scheduled_lr (1 / 10)%R 150))
                     (param_groups sample_optimizer))
                (momentum_buffer sample_optimizer)).
Proof. apply (adjust_lr_in_schedule sample_args sample_optimizer 150). lia. Qed.

Lemma adjust_lr_does_not_compound_witness :
  adjust_lr sample_args sample_optimizer 150
  = inr (mk_SGD (map (set_lr (scheduled_lr (1 / 10)%R 150))
                     (param_groups sample_optimizer))
                (momentum_buffer sample_optimizer))
  /\ adjust_lr sample_args
       (mk_SGD (map (set_lr (scheduled_lr (1 / 10)%R 150))
                    (param_groups sample_optimizer))
               (momentum_buffer sample_optimizer)) 151
     = adjust_lr sample_args sample_optimizer 151.
Proof.
  split; [exact sample_adjust_lr_150 |].
  exact (proj1 (adjust_lr_does_not_compound sample_args sample_optimizer _
                  150 151 sample_adjust_lr_150)).
Defined.

Lemma adjust_lr_never_raises_the_rate_witness :
  (0 <= args_lr sample_args)%R /\ (1 <= 100)%Z /\ (100 <= 101)%Z
  /\ (101 <= 200)%Z
  /\ exists lr1 lr2 o1 o2,
       adjust_lr sample_args sample_optimizer 100 = inr o1
       /\ all_groups_have_lr lr1 o1
       /\ adjust_lr sample_args sample_optimizer 101 = inr o2
       /\ all_groups_have_lr lr2 o2
       /\ (0 <= lr2 <= lr1)%R.
Proof.
  assert (Hlr : (0 <= args_lr sample_args)%R) by (cbn; lra).
  split; [exact Hlr |]. split; [lia |]. split; [lia |]. split; [lia |].
  apply (adjust_lr_never_raises_the_rate sample_args sample_optimizer 100 101);
    [exact Hlr | lia | lia | lia].
Defined.









Lemma epoch_runs_at_scheduled_rate_witness :
  (1 <= 150 <= 200)%nat /\
  Forall (fun st' => all_groups_have_lr (scheduled_lr (1 / 10)%R 150)
                       (st_optimizer st'))
    (run sample_autograd sample_accumulate sample_cleared sample_sgd_update
         sample_args
         (AdjustLr 150 :: train [2%nat] ++ test [3%nat] ++ [SaveCheckpoint 150])
         (main_init sample_args sample_params [0%nat] [1%nat])).1.
Proof.
  split; [lia |].
  apply (epoch_runs_at_scheduled_rate
           sample_autograd sample_accumulate sample_cleared sample_sgd_update
           sample_args [2%nat] [3%nat] 150
           (main_init sample_args sample_params [0%nat] [1%nat])).
  lia.
Defined.

Lemma sample_teacher_lookup :
  st_params (main_init sample_args sample_params [0%nat; 1%nat] [1%nat])
  !! 1%nat = Some (mk_param 5%R false None).
Proof. reflexivity. Qed.

Lemma frozen_parameter_never_changes_witness :
  p_requires_grad (mk_param 5%R false None) = false
  /\ p_grad (mk_param 5%R false None) = None
  /\ Forall (fun st' => st_params st' !! 1%nat = Some (mk_param 5%R false None))
       (run sample_autograd sample_accumulate sample_cleared sample_sgd_update
            sample_args [ZeroGrad; Backward 2%nat; Step]
            (main_init sample_args sample_params [0%nat; 1%nat] [1%nat])).1.
Proof.
  split; [reflexivity |]. split; [reflexivity |].
  apply (frozen_parameter_never_changes
           sample_autograd sample_accumulate sample_cleared sample_sgd_update
           sample_args [ZeroGrad; Backward 2%nat; Step]
           (main_init sample_args sample_params [0%nat; 1%nat] [1%nat])
           1%nat (mk_param 5%R false None) eq_refl eq_refl
           sample_teacher_lookup).
Defined.

Lemma sample_teacher_in_both : (1%nat : nat) ∈ [1%nat].
Proof. apply list_elem_of_singleton. reflexivity. Qed.

Lemma sample_params_teacher :
  sample_params !! 1%nat = Some (mk_param 5%R true None).
Proof. reflexivity. Qed.

Lemma shared_teacher_parameter_stays_frozen_witness :
  (1%nat : nat) ∈ [1%nat]
  /\ sample_params !! 1%nat = Some (mk_param 5%R true None)
  /\ Forall (fun st => st_params st !! 1%nat = Some (mk_param 5%R false None))
       (main sample_autograd sample_accumulate sample_cleared sample_sgd_update
             sample_args sample_params [0%nat; 1%nat] [1%nat]
             [2%nat] [3%nat]).1.
Proof.
  split; [exact sample_teacher_in_both |].
  split; [exact sample_params_teacher |].
  exact (shared_teacher_parameter_stays_frozen
           sample_autograd sample_accumulate sample_cleared sample_sgd_update
           sample_args sample_params [0%nat; 1%nat] [1%nat] [2%nat] [3%nat]
           1%nat (mk_param 5%R true None) sample_teacher_in_both
           sample_params_teacher eq_refl).
Defined.

Lemma checkpoint_names_differ_witness :
  7%nat <> 8%nat /\
  checkpoint_name (lit "./results") (lit "resnet110") (lit "resnet20") 7
  <> checkpoint_name (lit "./results") (lit "resnet110") (lit "resnet20") 8.
Proof.
  split; [lia |].
  apply (checkpoint_names_differ (lit "./results") (lit "resnet110")
           (lit "resnet20") 7 8).
  lia.
Defined.

Lemma train_progress_lines_witness :
  (10 <> 0)%Z /\
  exists lines,
    train_progress 10 391 = inr lines
    /\ length lines = (391 / Z.to_nat (Z.abs 10))%nat.
Proof.
  split; [lia |].
  destruct (train_progress_lines 10 391 ltac:(lia)) as (lines & Hrun & _ & Hlen).
  exists lines. split; [exact Hrun | exact Hlen].
Defined.
